(** * Graphics-Lab, tank demo: utils.js

    A shallow embedding of the rendering-support utilities of the tank
    demo (utils.js): the screen/object space mapper ([project],
    [unproject], [unproject_vector]), the tangent-space generator
    ([computeTangents]) and the articulated transform composer
    ([computeBarrelPivot]), together with the parts of wgpu-matrix they
    call.

    Numbers.  JavaScript numbers are modelled in exact arithmetic, as
    real numbers: rounding (of doubles, and of the [Float32Array]
    stores) and overflow are left out.  What is kept is where a
    computation leaves the reals: a division by zero (IEEE yields an
    infinity or NaN) and a read outside an array ([undefined], NaN in
    arithmetic) make the enclosing function return [None]. *)

From Stdlib Require Import Reals Lra Lia.
From stdpp Require Import base option list.

Open Scope R_scope.

(** ** Numbers and the error monad *)

Notation "x <- e ;; k" :=
  (match e with Some x => k | None => None end)
  (at level 61, e at next level, k at level 200, right associativity,
   only parsing).

(** [a / b] on JavaScript numbers; [None] when [b] is zero. *)
Definition fdiv (a b : R) : option R :=
  if Req_dec_T b 0 then None else Some (a / b).

(** ** Vectors and matrices (wgpu-matrix)

    wgpu-matrix is a dependency of the demo, not part of it.  The
    functions that utils.js calls are written out as the library
    computes them, on arrays of the length the calls pass. *)

(** A three-element array [[x, y, z]]. *)
Record vec3 : Type := Vec3 { vx : R; vy : R; vz : R }.

(** A four-element array; [eI] is the element at index [I].  Points are
    [[x, y, z, w]], viewports are [[x, y, width, height]]. *)
Record vec4 : Type := Vec4 { e0 : R; e1 : R; e2 : R; e3 : R }.

(** A 4x4 matrix as wgpu-matrix stores it: sixteen numbers, column
    major.  [mCR] is the element at index [C * 4 + R] (column [C], row
    [R]), the name the library's own code gives it. *)
Record mat4 : Type := Mat4 {
  m00 : R; m01 : R; m02 : R; m03 : R;
  m10 : R; m11 : R; m12 : R; m13 : R;
  m20 : R; m21 : R; m22 : R; m23 : R;
  m30 : R; m31 : R; m32 : R; m33 : R }.

(** [mat4.identity()] *)
Definition identity : mat4 :=
  Mat4 1 0 0 0
       0 1 0 0
       0 0 1 0
       0 0 0 1.

(** [mat4.clone(m)] copies the elements. *)
Definition clone (m : mat4) : mat4 := m.

(** [vec4.transformMat4(v, m)]: the matrix applied to the column [v]. *)
Definition transformMat4 (v : vec4) (m : mat4) : vec4 :=
  let x := e0 v in let y := e1 v in let z := e2 v in let w := e3 v in
  Vec4 (m00 m * x + m10 m * y + m20 m * z + m30 m * w)
       (m01 m * x + m11 m * y + m21 m * z + m31 m * w)
       (m02 m * x + m12 m * y + m22 m * z + m32 m * w)
       (m03 m * x + m13 m * y + m23 m * z + m33 m * w).

(** [mat4.translate(m, v)]: [m] times the translation by [v]; only the
    last column changes. *)
Definition translate (m : mat4) (v : vec3) : mat4 :=
  let v0 := vx v in let v1 := vy v in let v2 := vz v in
  Mat4 (m00 m) (m01 m) (m02 m) (m03 m)
       (m10 m) (m11 m) (m12 m) (m13 m)
       (m20 m) (m21 m) (m22 m) (m23 m)
       (m00 m * v0 + m10 m * v1 + m20 m * v2 + m30 m)
       (m01 m * v0 + m11 m * v1 + m21 m * v2 + m31 m)
       (m02 m * v0 + m12 m * v1 + m22 m * v2 + m32 m)
       (m03 m * v0 + m13 m * v1 + m23 m * v2 + m33 m).

(** [mat4.rotateY(m, angleInRadians)]: [m] times the rotation about the
    Y axis; columns 0 and 2 change. *)
Definition rotateY (m : mat4) (angleInRadians : R) : mat4 :=
  let c := cos angleInRadians in
  let s := sin angleInRadians in
  Mat4 (c * m00 m - s * m20 m) (c * m01 m - s * m21 m)
       (c * m02 m - s * m22 m) (c * m03 m - s * m23 m)
       (m10 m) (m11 m) (m12 m) (m13 m)
       (c * m20 m + s * m00 m) (c * m21 m + s * m01 m)
       (c * m22 m + s * m02 m) (c * m23 m + s * m03 m)
       (m30 m) (m31 m) (m32 m) (m33 m).

(** [mat4.rotate(m, axis, angleInRadians)] (the library's [axisRotate]):
    [m] times the rotation about [axis], which is normalised first. *)
Definition rotate (m : mat4) (axis : vec3) (angleInRadians : R)
  : option mat4 :=
  let n := sqrt (vx axis * vx axis + vy axis * vy axis + vz axis * vz axis) in
  x <- fdiv (vx axis) n ;;
  y <- fdiv (vy axis) n ;;
  z <- fdiv (vz axis) n ;;
  let xx := x * x in let yy := y * y in let zz := z * z in
  let c := cos angleInRadians in
  let s := sin angleInRadians in
  let oneMinusCosine := 1 - c in
  let r00 := xx + (1 - xx) * c in
  let r01 := x * y * oneMinusCosine + z * s in
  let r02 := x * z * oneMinusCosine - y * s in
  let r10 := x * y * oneMinusCosine - z * s in
  let r11 := yy + (1 - yy) * c in
  let r12 := y * z * oneMinusCosine + x * s in
  let r20 := x * z * oneMinusCosine + y * s in
  let r21 := y * z * oneMinusCosine - x * s in
  let r22 := zz + (1 - zz) * c in
  Some (Mat4
    (r00 * m00 m + r01 * m10 m + r02 * m20 m)
    (r00 * m01 m + r01 * m11 m + r02 * m21 m)
    (r00 * m02 m + r01 * m12 m + r02 * m22 m)
    (r00 * m03 m + r01 * m13 m + r02 * m23 m)
    (r10 * m00 m + r11 * m10 m + r12 * m20 m)
    (r10 * m01 m + r11 * m11 m + r12 * m21 m)
    (r10 * m02 m + r11 * m12 m + r12 * m22 m)
    (r10 * m03 m + r11 * m13 m + r12 * m23 m)
    (r20 * m00 m + r21 * m10 m + r22 * m20 m)
    (r20 * m01 m + r21 * m11 m + r22 * m21 m)
    (r20 * m02 m + r21 * m12 m + r22 * m22 m)
    (r20 * m03 m + r21 * m13 m + r22 * m23 m)
    (m30 m) (m31 m) (m32 m) (m33 m)).

(** The cofactors of the first row and the determinant, as
    [mat4.invert] expands it along them. *)
Definition cofactors0 (m : mat4) : vec4 :=
  let tmp0 := m22 m * m33 m in
  let tmp1 := m32 m * m23 m in
  let tmp2 := m12 m * m33 m in
  let tmp3 := m32 m * m13 m in
  let tmp4 := m12 m * m23 m in
  let tmp5 := m22 m * m13 m in
  let tmp6 := m02 m * m33 m in
  let tmp7 := m32 m * m03 m in
  let tmp8 := m02 m * m23 m in
  let tmp9 := m22 m * m03 m in
  let tmp10 := m02 m * m13 m in
  let tmp11 := m12 m * m03 m in
  Vec4
    ((tmp0 * m11 m + tmp3 * m21 m + tmp4 * m31 m)
     - (tmp1 * m11 m + tmp2 * m21 m + tmp5 * m31 m))
    ((tmp1 * m01 m + tmp6 * m21 m + tmp9 * m31 m)
     - (tmp0 * m01 m + tmp7 * m21 m + tmp8 * m31 m))
    ((tmp2 * m01 m + tmp7 * m11 m + tmp10 * m31 m)
     - (tmp3 * m01 m + tmp6 * m11 m + tmp11 * m31 m))
    ((tmp5 * m01 m + tmp8 * m11 m + tmp11 * m21 m)
     - (tmp4 * m01 m + tmp9 * m11 m + tmp10 * m21 m)).

Definition det (m : mat4) : R :=
  let t := cofactors0 m in
  m00 m * e0 t + m10 m * e1 t + m20 m * e2 t + m30 m * e3 t.

(** [mat4.invert(m)] (the library's [inverse]): the adjugate times
    [1 / det m].  A singular [m] makes the library divide by zero. *)
Definition invert (m : mat4) : option mat4 :=
  let tmp0 := m22 m * m33 m in
  let tmp1 := m32 m * m23 m in
  let tmp2 := m12 m * m33 m in
  let tmp3 := m32 m * m13 m in
  let tmp4 := m12 m * m23 m in
  let tmp5 := m22 m * m13 m in
  let tmp6 := m02 m * m33 m in
  let tmp7 := m32 m * m03 m in
  let tmp8 := m02 m * m23 m in
  let tmp9 := m22 m * m03 m in
  let tmp10 := m02 m * m13 m in
  let tmp11 := m12 m * m03 m in
  let tmp12 := m20 m * m31 m in
  let tmp13 := m30 m * m21 m in
  let tmp14 := m10 m * m31 m in
  let tmp15 := m30 m * m11 m in
  let tmp16 := m10 m * m21 m in
  let tmp17 := m20 m * m11 m in
  let tmp18 := m00 m * m31 m in
  let tmp19 := m30 m * m01 m in
  let tmp20 := m00 m * m21 m in
  let tmp21 := m20 m * m01 m in
  let tmp22 := m00 m * m11 m in
  let tmp23 := m10 m * m01 m in
  let t := cofactors0 m in
  let t0 := e0 t in let t1 := e1 t in let t2 := e2 t in let t3 := e3 t in
  d <- fdiv 1 (m00 m * t0 + m10 m * t1 + m20 m * t2 + m30 m * t3) ;;
  Some (Mat4
    (d * t0) (d * t1) (d * t2) (d * t3)
    (d * ((tmp1 * m10 m + tmp2 * m20 m + tmp5 * m30 m)
          - (tmp0 * m10 m + tmp3 * m20 m + tmp4 * m30 m)))
    (d * ((tmp0 * m00 m + tmp7 * m20 m + tmp8 * m30 m)
          - (tmp1 * m00 m + tmp6 * m20 m + tmp9 * m30 m)))
    (d * ((tmp3 * m00 m + tmp6 * m10 m + tmp11 * m30 m)
          - (tmp2 * m00 m + tmp7 * m10 m + tmp10 * m30 m)))
    (d * ((tmp4 * m00 m + tmp9 * m10 m + tmp10 * m20 m)
          - (tmp5 * m00 m + tmp8 * m10 m + tmp11 * m20 m)))
    (d * ((tmp12 * m13 m + tmp15 * m23 m + tmp16 * m33 m)
          - (tmp13 * m13 m + tmp14 * m23 m + tmp17 * m33 m)))
    (d * ((tmp13 * m03 m + tmp18 * m23 m + tmp21 * m33 m)
          - (tmp12 * m03 m + tmp19 * m23 m + tmp20 * m33 m)))
    (d * ((tmp14 * m03 m + tmp19 * m13 m + tmp22 * m33 m)
          - (tmp15 * m03 m + tmp18 * m13 m + tmp23 * m33 m)))
    (d * ((tmp17 * m03 m + tmp20 * m13 m + tmp23 * m23 m)
          - (tmp16 * m03 m + tmp21 * m13 m + tmp22 * m23 m)))
    (d * ((tmp14 * m22 m + tmp17 * m32 m + tmp13 * m12 m)
          - (tmp16 * m32 m + tmp12 * m12 m + tmp15 * m22 m)))
    (d * ((tmp20 * m32 m + tmp12 * m02 m + tmp19 * m22 m)
          - (tmp18 * m22 m + tmp21 * m32 m + tmp13 * m02 m)))
    (d * ((tmp18 * m12 m + tmp23 * m32 m + tmp15 * m02 m)
          - (tmp22 * m32 m + tmp14 * m02 m + tmp19 * m12 m)))
    (d * ((tmp22 * m22 m + tmp16 * m02 m + tmp21 * m12 m)
          - (tmp20 * m12 m + tmp23 * m22 m + tmp17 * m02 m)))).

(** ** Screen/object space mapper *)

(** [v.map((x) => x / d)] on a four-element array. *)
Definition map_div (v : vec4) (d : R) : option vec4 :=
  a <- fdiv (e0 v) d ;;
  b <- fdiv (e1 v) d ;;
  c <- fdiv (e2 v) d ;;
  w <- fdiv (e3 v) d ;;
  Some (Vec4 a b c w).

(** [project(p_obj, MVP, viewport)].  The loop over [i = 0, 1] is
    written out. *)
Definition project (p_obj : vec4) (MVP : mat4) (viewport : vec4)
  : option vec4 :=
  let tmp := transformMat4 p_obj MVP in
  tmp <- map_div tmp (e3 tmp) ;;
  Some (Vec4 ((0.5 * e0 tmp + 0.5) * e2 viewport + e0 viewport)
             ((0.5 * e1 tmp + 0.5) * e3 viewport + e1 viewport)
             (e2 tmp)
             (e3 tmp)).

(** [unproject(p_win, MVP, viewport)].  [mat4.clone] applied to the
    four-element [p_win] copies its four elements. *)
Definition unproject (p_win : vec4) (MVP : mat4) (viewport : vec4)
  : option vec4 :=
  MVP_inv <- invert MVP ;;
  let tmp := p_win in
  t0 <- fdiv (2.0 * (e0 tmp - e0 viewport)) (e2 viewport) ;;
  t1 <- fdiv (2.0 * (e1 tmp - e1 viewport)) (e3 viewport) ;;
  let tmp := Vec4 (t0 - 1.0) (t1 - 1.0) (e2 tmp) (e3 tmp) in
  let p_obj := transformMat4 tmp MVP_inv in
  map_div p_obj (e3 p_obj).

(** [unproject_vector(vec_win, MVP, viewport)] *)
Definition unproject_vector (vec_win : vec3) (MVP : mat4) (viewport : vec4)
  : option vec4 :=
  org_win <- project (Vec4 0 0 0 1) MVP viewport ;;
  unproject (Vec4 (e0 org_win + vx vec_win)
                  (e1 org_win + vy vec_win)
                  (e2 org_win + vz vec_win)
                  1)
            MVP viewport.

(** The two halves of the mapping that do not involve the viewport:
    object space to normalized device coordinates, and back. *)
Definition ndc (p_obj : vec4) (MVP : mat4) : option vec4 :=
  let clip := transformMat4 p_obj MVP in map_div clip (e3 clip).

Definition from_ndc (n : vec4) (MVP : mat4) : option vec4 :=
  MVP_inv <- invert MVP ;;
  let p_obj := transformMat4 n MVP_inv in map_div p_obj (e3 p_obj).

(** [unproject_vector] as the specification words it: the difference of
    the unprojections of the projected origin moved by [vec_win] and of
    the projected origin itself, as a 3D vector. *)
Definition unprojection_difference (vec_win : vec3) (MVP : mat4)
    (viewport : vec4) : option vec3 :=
  org_win <- project (Vec4 0 0 0 1) MVP viewport ;;
  a <- unproject (Vec4 (e0 org_win + vx vec_win)
                       (e1 org_win + vy vec_win)
                       (e2 org_win + vz vec_win)
                       (e3 org_win))
                 MVP viewport ;;
  b <- unproject org_win MVP viewport ;;
  Some (Vec3 (e0 a - e0 b) (e1 a - e1 b) (e2 a - e2 b)).

Definition add3 (a b : vec3) : vec3 :=
  Vec3 (vx a + vx b) (vy a + vy b) (vz a + vz b).

Definition sub3 (a b : vec3) : vec3 :=
  Vec3 (vx a - vx b) (vy a - vy b) (vz a - vz b).

Definition scale3 (k : R) (a : vec3) : vec3 :=
  Vec3 (k * vx a) (k * vy a) (k * vz a).

(** The first three elements of a four-element array. *)
Definition xyz (v : vec4) : vec3 := Vec3 (e0 v) (e1 v) (e2 v).

Definition dot (a b : vec3) : R := vx a * vx b + vy a * vy b + vz a * vz b.

Definition norm (a : vec3) : R := sqrt (vx a * vx a + vy a * vy a + vz a * vz a).

(** ** Tangent-space generator *)

(** [a[i * 3], a[i * 3 + 1], a[i * 3 + 2]]: the three numbers of vertex
    [i] in a flat array. *)
Definition vertex3 (a : list R) (i : nat) : option vec3 :=
  x <- a !! (i * 3)%nat ;;
  y <- a !! (i * 3 + 1)%nat ;;
  z <- a !! (i * 3 + 2)%nat ;;
  Some (Vec3 x y z).

(** [a[i * 2], a[i * 2 + 1]]: the texture coordinates of vertex [i]. *)
Definition vertex2 (a : list R) (i : nat) : option (R * R) :=
  u <- a !! (i * 2)%nat ;;
  v <- a !! (i * 2 + 1)%nat ;;
  Some (u, v).

(** [a[i] += x] on a [Float32Array]: out of range the read is
    [undefined] and the store is dropped, the array stays as it is. *)
Definition add_at (a : list R) (i : nat) (x : R) : list R :=
  match a !! i with
  | Some y => <[i := y + x]> a
  | None => a
  end.

(** The three [+=] on the slots of vertex [i]. *)
Definition add_vertex3 (a : list R) (i : nat) (v : vec3) : list R :=
  add_at (add_at (add_at a (i * 3) (vx v)) (i * 3 + 1) (vy v))
         (i * 3 + 2) (vz v).

(** The three stores [a[i * 3] = x; a[i * 3 + 1] = y; a[i * 3 + 2] = z]. *)
Definition set_vertex3 (a : list R) (i : nat) (v : vec3) : list R :=
  <[(i * 3 + 2)%nat := vz v]>
    (<[(i * 3 + 1)%nat := vy v]> (<[(i * 3)%nat := vx v]> a)).

(** The two output arrays, which are also the accumulators. *)
Record buffers : Type :=
  Buffers { tangents : list R; bitangents : list R }.

(** The edges of a triangle in position space and in UV space. *)
Record deltas : Type := Deltas
  { E1 : vec3; E2 : vec3; dU1 : R; dV1 : R; dU2 : R; dV2 : R }.

Definition triangle_deltas (positions uvs : list R) (i0 i1 i2 : nat)
  : option deltas :=
  p0 <- vertex3 positions i0 ;;
  p1 <- vertex3 positions i1 ;;
  p2 <- vertex3 positions i2 ;;
  t0 <- vertex2 uvs i0 ;;
  t1 <- vertex2 uvs i1 ;;
  t2 <- vertex2 uvs i2 ;;
  Some {| E1 := Vec3 (vx p1 - vx p0) (vy p1 - vy p0) (vz p1 - vz p0);
          E2 := Vec3 (vx p2 - vx p0) (vy p2 - vy p0) (vz p2 - vz p0);
          dU1 := fst t1 - fst t0; dV1 := snd t1 - snd t0;
          dU2 := fst t2 - fst t0; dV2 := snd t2 - snd t0 |}.

Definition denom (d : deltas) : R := dU1 d * dV2 d - dU2 d * dV1 d.

(** The tangent [T] and bitangent [B] of one triangle. *)
Definition tangent_bitangent (d : deltas) : option (vec3 * vec3) :=
  r <- fdiv 1.0 (denom d) ;;
  Some (Vec3 ((vx (E1 d) * dV2 d - vx (E2 d) * dV1 d) * r)
             ((vy (E1 d) * dV2 d - vy (E2 d) * dV1 d) * r)
             ((vz (E1 d) * dV2 d - vz (E2 d) * dV1 d) * r),
        Vec3 ((vx (E2 d) * dU1 d - vx (E1 d) * dU2 d) * r)
             ((vy (E2 d) * dU1 d - vy (E1 d) * dU2 d) * r)
             ((vz (E2 d) * dU1 d - vz (E1 d) * dU2 d) * r)).

(** One turn of the loop over the triangles. *)
Definition accumulate_triangle (positions uvs : list R) (acc : buffers)
    (i0 i1 i2 : nat) : option buffers :=
  d <- triangle_deltas positions uvs i0 i1 i2 ;;
  if Req_dec_T (denom d) 0.0 then Some acc
  else
    TB <- tangent_bitangent d ;;
    Some {| tangents :=
              add_vertex3 (add_vertex3 (add_vertex3 (tangents acc)
                i0 (fst TB)) i1 (fst TB)) i2 (fst TB);
            bitangents :=
              add_vertex3 (add_vertex3 (add_vertex3 (bitangents acc)
                i0 (snd TB)) i1 (snd TB)) i2 (snd TB) |}.

(** [for (let i = 0; i < indices.length; i += 3)].  A last triple that
    is cut short reads [undefined] indices. *)
Fixpoint accumulate (positions uvs : list R) (indices : list nat)
    (acc : buffers) : option buffers :=
  match indices with
  | [] => Some acc
  | i0 :: i1 :: i2 :: rest =>
      acc' <- accumulate_triangle positions uvs acc i0 i1 i2 ;;
      accumulate positions uvs rest acc'
  | _ => None
  end.

(** [t] minus its projection onto [n]. *)
Definition reject (n t : vec3) : vec3 :=
  let NdotT := vx n * vx t + vy n * vy t + vz n * vz t in
  Vec3 (vx t - NdotT * vx n) (vy t - NdotT * vy n) (vz t - NdotT * vz n).

(** Orthogonalise [t] against [n], then normalise unless the length is
    zero. *)
Definition orthonormalize (n t : vec3) : option vec3 :=
  let t' := reject n t in
  let tlen := sqrt (vx t' * vx t' + vy t' * vy t' + vz t' * vz t') in
  if Rgt_dec tlen 0.0 then
    tx <- fdiv (vx t') tlen ;;
    ty <- fdiv (vy t') tlen ;;
    tz <- fdiv (vz t') tlen ;;
    Some (Vec3 tx ty tz)
  else Some t'.

(** One turn of the loop over the vertices. *)
Definition finalize_vertex (normals : list R) (acc : buffers) (i : nat)
  : option buffers :=
  n <- vertex3 normals i ;;
  t <- vertex3 (tangents acc) i ;;
  t <- orthonormalize n t ;;
  let tangents' := set_vertex3 (tangents acc) i t in
  b <- vertex3 (bitangents acc) i ;;
  b <- orthonormalize n b ;;
  let bitangents' := set_vertex3 (bitangents acc) i b in
  Some {| tangents := tangents'; bitangents := bitangents' |}.

Fixpoint finalize (normals : list R) (vertices : list nat) (acc : buffers)
  : option buffers :=
  match vertices with
  | [] => Some acc
  | i :: rest =>
      acc' <- finalize_vertex normals acc i ;;
      finalize normals rest acc'
  end.

(** [computeTangents(positions, normals, uvs, indices)].  The length of
    [positions] is a multiple of three on every mesh the loader passes;
    [vertexCount] is then exact. *)
Definition computeTangents (positions normals uvs : list R)
    (indices : list nat) : option buffers :=
  let vertexCount := (length positions / 3)%nat in
  let acc := {| tangents := replicate (vertexCount * 3) 0;
                bitangents := replicate (vertexCount * 3) 0 |} in
  acc <- accumulate positions uvs indices acc ;;
  finalize normals (seq 0 vertexCount) acc.

(** The invariant of the mesh buffers. *)
Definition well_formed (positions normals uvs : list R)
    (indices : list nat) (vertexCount : nat) : Prop :=
  length positions = (vertexCount * 3)%nat /\
  length normals = (vertexCount * 3)%nat /\
  length uvs = (vertexCount * 2)%nat /\
  (exists triangles, length indices = (triangles * 3)%nat) /\
  Forall (fun i => (i < vertexCount)%nat) indices.

(** What the loop over the vertices leaves at vertex [i]: the
    accumulated tangent and bitangent of [acc], each orthogonalised
    against the normal and normalised. *)
Definition finalized_at (normals : list R) (acc out : buffers) (i : nat)
  : Prop :=
  exists n t b t' b',
    vertex3 normals i = Some n /\
    vertex3 (tangents acc) i = Some t /\
    vertex3 (bitangents acc) i = Some b /\
    orthonormalize n t = Some t' /\
    orthonormalize n b = Some b' /\
    vertex3 (tangents out) i = Some t' /\
    vertex3 (bitangents out) i = Some b'.

(** ** Articulated transform composer *)

Record TankState : Type := MkTankState {
  position : vec3;
  rotation : R;
  turretRotation : R;
  barrelElevation : R }.

(** [computeBarrelPivot(tankState, turretPivot, barrelPivot, joinPivot)] *)
Definition computeBarrelPivot (tankState : TankState)
    (turretPivot barrelPivot joinPivot : vec3) : option vec3 :=
  let M_body := identity in
  let M_body :=
    translate M_body
      (Vec3 (vx (position tankState)) 0.46 (vz (position tankState))) in
  let M_body := rotateY M_body (rotation tankState) in
  let M_turret := clone M_body in
  let M_turret :=
    translate M_turret
      (Vec3 (- vx turretPivot) (- vy turretPivot) (- vz turretPivot)) in
  let M_turret := rotateY M_turret (turretRotation tankState) in
  let M_turret := translate M_turret turretPivot in
  let M_barrel := clone M_turret in
  let M_barrel :=
    translate M_barrel
      (Vec3 (- vx joinPivot) (- vy joinPivot) (- vz joinPivot)) in
  M_barrel <- rotate M_barrel (Vec3 0 0 1) (barrelElevation tankState) ;;
  let M_barrel := translate M_barrel joinPivot in
  let localEnd :=
    Vec4 (vx barrelPivot) (vy barrelPivot - 0.46) (vz barrelPivot) 1 in
  let worldEnd := transformMat4 localEnd M_barrel in
  Some (Vec3 (e0 worldEnd) (e1 worldEnd) (e2 worldEnd)).

(** ** Asset loader (loader.js)

    The body of the loop over the meshes in [loadAllMeshesFromGLTF] and
    in [loadOBJAsMeshes]: from the decoded geometry to the arrays that
    are uploaded.  A GPU buffer made by [createBufferFromArray] is
    recorded as the array written to it. *)

(** An index array and whether it is a [Uint32Array]. *)
Record index_array : Type :=
  IndexArray { is_Uint32Array : bool; index_values : list nat }.

(** [geometry.attributes.position.array], [.normal.array], [.uv] (which
    may be missing) and [geometry.index] (which may be missing). *)
Record geometry : Type := Geometry {
  attr_position : list R;
  attr_normal : list R;
  attr_uv : option (list R);
  geom_index : option index_array }.

(** An entry of [meshData]. *)
Record mesh_data : Type := MeshData {
  posBuffer : list R;
  normalBuffer : list R;
  uvBuffer : list R;
  tangentBuffer : list R;
  bitangentBuffer : list R;
  indexBuffer : list nat;
  indexCount : nat }.

(** [new Float32Array((positions.length / 3) * 2)]: zeros; a fractional
    length is truncated. *)
Definition default_uvs (positions : list R) : list R :=
  replicate (length positions * 2 / 3) 0.

(** [tmp[i] = indices[i]] for [i = 0, ..., indices.length - 1] on a
    fresh [Uint32Array], which keeps a number modulo [2 ^ 32]. *)
Definition to_Uint32Array (indices : list nat) : list nat :=
  fold_left
    (fun tmp i =>
       <[i := match indices !! i with
              | Some v => v mod 2 ^ 32
              | None => 0
              end]> tmp)%nat
    (seq 0 (length indices))
    (replicate (length indices) 0%nat).

(** [indices[i] = i] for [i < count] on [new Uint32Array(count)], with
    [count = positions.length / 3]: a fractional [count] is truncated
    for the array and gives the loop one more turn, whose store is
    dropped.  [i] is below the length of a typed array, so below
    [2 ^ 32]. *)
Definition sequential_indices (positions : list R) : list nat :=
  fold_left (fun indices i => <[i := i]> indices)
            (seq 0 ((length positions + 2) / 3))
            (replicate (length positions / 3) 0%nat).

(** The loop body of [loadAllMeshesFromGLTF]; reading [.array] of a
    missing index throws. *)
Definition gltf_mesh (g : geometry) : option mesh_data :=
  let positions := attr_position g in
  let normals := attr_normal g in
  let uvs := match attr_uv g with
             | Some a => a
             | None => default_uvs positions
             end in
  index <- geom_index g ;;
  let indices := if is_Uint32Array index then index_values index
                 else to_Uint32Array (index_values index) in
  TB <- computeTangents positions normals uvs indices ;;
  Some {| posBuffer := positions; normalBuffer := normals; uvBuffer := uvs;
          tangentBuffer := tangents TB; bitangentBuffer := bitangents TB;
          indexBuffer := indices; indexCount := length indices |}.

(** The loop body of [loadOBJAsMeshes]. *)
Definition obj_mesh (g : geometry) : option mesh_data :=
  let positions := attr_position g in
  let normals := attr_normal g in
  let uvs := match attr_uv g with
             | Some a => a
             | None => default_uvs positions
             end in
  let indices := match geom_index g with
                 | Some index => index_values index
                 | None => sequential_indices positions
                 end in
  TB <- computeTangents positions normals uvs indices ;;
  Some {| posBuffer := positions; normalBuffer := normals; uvBuffer := uvs;
          tangentBuffer := tangents TB; bitangentBuffer := bitangents TB;
          indexBuffer := indices; indexCount := length indices |}.

(** ** Camera control (UI.js) *)

(** More of wgpu-matrix. *)

(** [mat4.multiply(a, b)]: the product [a b]. *)
Definition multiply (a b : mat4) : mat4 :=
  Mat4 (m00 a * m00 b + m10 a * m01 b + m20 a * m02 b + m30 a * m03 b)
       (m01 a * m00 b + m11 a * m01 b + m21 a * m02 b + m31 a * m03 b)
       (m02 a * m00 b + m12 a * m01 b + m22 a * m02 b + m32 a * m03 b)
       (m03 a * m00 b + m13 a * m01 b + m23 a * m02 b + m33 a * m03 b)
       (m00 a * m10 b + m10 a * m11 b + m20 a * m12 b + m30 a * m13 b)
       (m01 a * m10 b + m11 a * m11 b + m21 a * m12 b + m31 a * m13 b)
       (m02 a * m10 b + m12 a * m11 b + m22 a * m12 b + m32 a * m13 b)
       (m03 a * m10 b + m13 a * m11 b + m23 a * m12 b + m33 a * m13 b)
       (m00 a * m20 b + m10 a * m21 b + m20 a * m22 b + m30 a * m23 b)
       (m01 a * m20 b + m11 a * m21 b + m21 a * m22 b + m31 a * m23 b)
       (m02 a * m20 b + m12 a * m21 b + m22 a * m22 b + m32 a * m23 b)
       (m03 a * m20 b + m13 a * m21 b + m23 a * m22 b + m33 a * m23 b)
       (m00 a * m30 b + m10 a * m31 b + m20 a * m32 b + m30 a * m33 b)
       (m01 a * m30 b + m11 a * m31 b + m21 a * m32 b + m31 a * m33 b)
       (m02 a * m30 b + m12 a * m31 b + m22 a * m32 b + m32 a * m33 b)
       (m03 a * m30 b + m13 a * m31 b + m23 a * m32 b + m33 a * m33 b).

(** [vec3.transformMat4(v, m)]: the point [v] through [m], divided by
    the resulting [w], or by one when that [w] is zero ([... || 1]). *)
Definition vec3_transformMat4 (v : vec3) (m : mat4) : vec3 :=
  let x := vx v in let y := vy v in let z := vz v in
  let w0 := m03 m * x + m13 m * y + m23 m * z + m33 m in
  let w := if Req_dec_T w0 0 then 1 else w0 in
  Vec3 ((m00 m * x + m10 m * y + m20 m * z + m30 m) / w)
       ((m01 m * x + m11 m * y + m21 m * z + m31 m) / w)
       ((m02 m * x + m12 m * y + m22 m * z + m32 m) / w).

(** [utils.degToRad(degrees)] *)
Definition degToRad (degrees : R) : R := degrees * PI / 180.

(** [UI.NONE], [UI.ROTATING], [UI.TRANSLATING] *)
Inductive mode : Type := NONE | ROTATING | TRANSLATING.

(** [UI.camera] *)
Record Camera : Type := MkCamera {
  fovy : R;
  camera_position : vec3;
  near : R;
  far : R }.

(** [UI.matrices]; a field is [null] until it is set. *)
Record Matrices : Type := MkMatrices {
  mat_P : option mat4;
  mat_R : option mat4;
  mat_VP : option mat4 }.

(** What the handlers read of [UI.canvas]. *)
Record Canvas : Type := MkCanvas {
  width : R;
  height : R;
  clientWidth : R;
  clientHeight : R }.

(** The static members of [UI]. *)
Record UI : Type := MkUI {
  mouseMove : mode;
  camera : Camera;
  matrices : Matrices;
  canvas : Canvas }.

(** What the handlers read of an event. *)
Record Event : Type := MkEvent {
  buttons : nat;
  metaKey : bool;
  ctrlKey : bool;
  movementX : R;
  movementY : R;
  deltaY : R }.

(** The camera of a fresh [UI]. *)
Definition initial_camera : Camera :=
  MkCamera 45 (Vec3 (-0.2) (-0.5) (-4)) 0.1 100.

(** [UI.onmousedown(ev)] *)
Definition onmousedown (ev : Event) (s : UI) : UI :=
  if (buttons ev =? 1)%nat then
    if metaKey ev || ctrlKey ev
    then MkUI TRANSLATING (camera s) (matrices s) (canvas s)
    else MkUI ROTATING (camera s) (matrices s) (canvas s)
  else s.

(** [UI.onmouseup(ev)] *)
Definition onmouseup (ev : Event) (s : UI) : UI :=
  MkUI NONE (camera s) (matrices s) (canvas s).

Section Camera.

(** [mat4.perspective(fieldOfViewYInRadians, aspect, zNear, zFar)] of
    wgpu-matrix, taken as it comes: nothing below depends on what it
    computes. *)
Variable perspective : R -> R -> R -> R -> option mat4.

(** [UI.update_VP()] *)
Definition update_VP (s : UI) : option UI :=
  aspect <- fdiv (width (canvas s)) (height (canvas s)) ;;
  P <- perspective (degToRad (fovy (camera s))) aspect
                   (near (camera s)) (far (camera s)) ;;
  let R0 := match mat_R (matrices s) with
            | Some r => r
            | None => identity
            end in
  let T := translate P (camera_position (camera s)) in
  Some (MkUI (mouseMove s) (camera s)
             (MkMatrices (Some P) (Some R0) (Some (multiply T R0)))
             (canvas s)).

(** [UI.onmousemove(ev)] *)
Definition onmousemove (ev : Event) (s : UI) : option UI :=
  let offset := (movementX ev, movementY ev) in
  match mouseMove s with
  | ROTATING =>
      s <- update_VP s ;;
      VP <- mat_VP (matrices s) ;;
      R0 <- mat_R (matrices s) ;;
      axis <- unproject_vector (Vec3 (snd offset) (fst offset) 0) VP
                (Vec4 0 0 (clientWidth (canvas s)) (clientHeight (canvas s))) ;;
      R1 <- rotate R0 (Vec3 (e0 axis) (e1 axis) (e2 axis))
              (degToRad ((fst offset * fst offset + snd offset * snd offset)
                         * 0.1)) ;;
      Some (MkUI (mouseMove s) (camera s)
                 (MkMatrices (mat_P (matrices s)) (Some R1)
                             (mat_VP (matrices s)))
                 (canvas s))
  | TRANSLATING =>
      s <- update_VP s ;;
      VP <- mat_VP (matrices s) ;;
      R0 <- mat_R (matrices s) ;;
      by' <- unproject_vector (Vec3 (fst offset) (- snd offset) 0) VP
               (Vec4 0 0 (clientWidth (canvas s)) (clientHeight (canvas s))) ;;
      let moved :=
        add3 (camera_position (camera s))
             (vec3_transformMat4 (Vec3 (e0 by') (e1 by') (e2 by')) R0) in
      Some (MkUI (mouseMove s)
                 (MkCamera (fovy (camera s)) moved
                           (near (camera s)) (far (camera s)))
                 (matrices s) (canvas s))
  | NONE => Some s
  end.

(** [UI.onwheel(ev)] *)
Definition onwheel (ev : Event) (s : UI) : option UI :=
  let p := camera_position (camera s) in
  let z := - Rmax 1 (Rmin (- vz p + deltaY ev * 0.01) 50) in
  update_VP (MkUI (mouseMove s)
                  (MkCamera (fovy (camera s)) (Vec3 (vx p) (vy p) z)
                            (near (camera s)) (far (camera s)))
                  (matrices s) (canvas s)).

End Camera.

(** The rotation [UI.matrices.R], once set, has the last column of the
    identity: it carries no translation. *)
Definition no_translation (s : UI) : Prop :=
  forall r, mat_R (matrices s) = Some r ->
    m30 r = 0 /\ m31 r = 0 /\ m32 r = 0 /\ m33 r = 1.

(** * Properties *)

(** ** Arithmetic *)

(** The decimal literals of the source. *)
Lemma lit_0_0 : 0.0 = 0. Proof. lra. Qed.
Lemma lit_1_0 : 1.0 = 1. Proof. lra. Qed.
Lemma lit_2_0 : 2.0 = 2. Proof. lra. Qed.
Lemma lit_0_5 : 0.5 = / 2. Proof. lra. Qed.
Lemma lit_0_46 : 0.46 = 46 / 100. Proof. lra. Qed.

Ltac literals :=
  rewrite ?lit_0_0, ?lit_1_0, ?lit_2_0, ?lit_0_5, ?lit_0_46 in *.

Lemma fdiv_Some (a b : R) : b <> 0 -> fdiv a b = Some (a / b).
Proof. intros H. unfold fdiv. destruct (Req_dec_T b 0); [contradiction|reflexivity]. Qed.

Lemma fdiv_zero (a : R) : fdiv a 0 = None.
Proof. unfold fdiv. destruct (Req_dec_T 0 0); [reflexivity|contradiction]. Qed.

(** ** wgpu-matrix *)

(** The inverse really is one. *)
Lemma invert_Some (m : mat4) :
  det m <> 0 -> exists mi, invert m = Some mi.
Proof.
  intros Hd. unfold invert, fdiv.
  destruct (Req_dec_T _ 0) as [E|E]; [|eauto].
  exfalso. apply Hd. exact E.
Qed.

Lemma invert_left_inverse (m mi : mat4) (p : vec4) :
  invert m = Some mi -> transformMat4 (transformMat4 p m) mi = p.
Proof.
  unfold invert, fdiv.
  destruct (Req_dec_T _ 0) as [E|E]; [discriminate|].
  intros [= <-]. destruct p as [x y z w]. unfold transformMat4; cbn in *.
  f_equal; field; exact E.
Qed.

Lemma invert_identity : invert identity = Some identity.
Proof.
  unfold invert, identity; cbn.
  rewrite fdiv_Some by lra. do 2 f_equal; field.
Qed.

Lemma vec4_eq (a b c d a' b' c' d' : R) :
  a = a' -> b = b' -> c = c' -> d = d' -> Vec4 a b c d = Vec4 a' b' c' d'.
Proof. congruence. Qed.

Lemma vec3_eq (a b c a' b' c' : R) :
  a = a' -> b = b' -> c = c' -> Vec3 a b c = Vec3 a' b' c'.
Proof. congruence. Qed.

(** ** Screen/object space mapper *)

Section Mapper.

Variables (MVP : mat4) (viewport : vec4).

Lemma map_div_Some (v : vec4) (d : R) :
  d <> 0 ->
  map_div v d = Some (Vec4 (e0 v / d) (e1 v / d) (e2 v / d) (e3 v / d)).
Proof. intros H. unfold map_div. rewrite !fdiv_Some by exact H. reflexivity. Qed.

Lemma map_div_zero (v : vec4) : map_div v 0 = None.
Proof. unfold map_div. rewrite fdiv_zero. reflexivity. Qed.

Lemma project_Some (p : vec4) :
  let clip := transformMat4 p MVP in
  e3 clip <> 0 ->
  project p MVP viewport =
    Some (Vec4 ((0.5 * (e0 clip / e3 clip) + 0.5) * e2 viewport + e0 viewport)
               ((0.5 * (e1 clip / e3 clip) + 0.5) * e3 viewport + e1 viewport)
               (e2 clip / e3 clip)
               1).
Proof.
  intros clip H. unfold project. fold clip. rewrite map_div_Some by exact H.
  cbn. f_equal. apply vec4_eq; try reflexivity. field. exact H.
Qed.

Lemma transformMat4_div (v : vec4) (m : mat4) (k : R) :
  k <> 0 ->
  transformMat4 (Vec4 (e0 v / k) (e1 v / k) (e2 v / k) (e3 v / k)) m =
    let r := transformMat4 v m in
    Vec4 (e0 r / k) (e1 r / k) (e2 r / k) (e3 r / k).
Proof. intros Hk. unfold transformMat4; cbn. apply vec4_eq; field; exact Hk. Qed.

Lemma from_ndc_scaled (p : vec4) (k : R) :
  det MVP <> 0 -> k <> 0 -> e3 p <> 0 ->
  let clip := transformMat4 p MVP in
  from_ndc (Vec4 (e0 clip / k) (e1 clip / k) (e2 clip / k) (e3 clip / k)) MVP =
    Some (Vec4 (e0 p / e3 p) (e1 p / e3 p) (e2 p / e3 p) 1).
Proof.
  intros Hd Hk Hw clip. unfold from_ndc.
  destruct (invert_Some MVP Hd) as [mi Hmi]. rewrite Hmi.
  rewrite transformMat4_div by exact Hk.
  unfold clip. rewrite (invert_left_inverse MVP mi p Hmi). cbn.
  rewrite map_div_Some.
  - cbn. f_equal. apply vec4_eq; field; auto.
  - intros E. apply Hw.
    apply (Rmult_eq_compat_r k) in E. unfold Rdiv in E.
    rewrite Rmult_assoc, Rinv_l, Rmult_1_r, Rmult_0_l in E by exact Hk. exact E.
Qed.

Lemma unproject_as_from_ndc (q : vec4) :
  unproject q MVP viewport =
    nx <- fdiv (2.0 * (e0 q - e0 viewport)) (e2 viewport) ;;
    ny <- fdiv (2.0 * (e1 q - e1 viewport)) (e3 viewport) ;;
    from_ndc (Vec4 (nx - 1.0) (ny - 1.0) (e2 q) (e3 q)) MVP.
Proof.
  unfold unproject, from_ndc.
  destruct (invert MVP); [reflexivity|].
  destruct (fdiv _ (e2 viewport)); [|reflexivity].
  destruct (fdiv _ (e3 viewport)); reflexivity.
Qed.

(** The window coordinates of a point of normalized device
    coordinates, mapped back. *)
Lemma unproject_window (n : vec4) :
  e2 viewport <> 0 -> e3 viewport <> 0 ->
  unproject (Vec4 ((0.5 * e0 n + 0.5) * e2 viewport + e0 viewport)
                  ((0.5 * e1 n + 0.5) * e3 viewport + e1 viewport)
                  (e2 n) (e3 n)) MVP viewport
  = from_ndc n MVP.
Proof.
  intros Hw Hh. rewrite unproject_as_from_ndc. cbn.
  rewrite !fdiv_Some by assumption. f_equal.
  destruct n as [a b c d]; cbn. literals.
  apply vec4_eq; try reflexivity; field; assumption.
Qed.

Lemma roundtrip (p : vec4) :
  det MVP <> 0 -> e2 viewport <> 0 -> e3 viewport <> 0 ->
  e3 (transformMat4 p MVP) <> 0 -> e3 p <> 0 ->
  exists q,
    project p MVP viewport = Some q /\
    e3 q = 1 /\
    unproject q MVP viewport =
      Some (Vec4 (e0 p / e3 p) (e1 p / e3 p) (e2 p / e3 p) 1).
Proof.
  intros Hd Hw Hh Hc Hp. eexists. split; [apply project_Some; exact Hc|].
  split; [reflexivity|].
  set (clip := transformMat4 p MVP) in *.
  pose proof (unproject_window (Vec4 (e0 clip / e3 clip) (e1 clip / e3 clip)
                                     (e2 clip / e3 clip) 1) Hw Hh) as HW.
  cbn [e0 e1 e2 e3] in HW. rewrite HW.
  rewrite <- (from_ndc_scaled p (e3 clip)) by assumption.
  fold clip. f_equal. apply vec4_eq; try reflexivity. field. exact Hc.
Qed.

End Mapper.

Lemma det_identity : det identity = 1.
Proof. unfold det, cofactors0, identity; cbn. ring. Qed.

Lemma transformMat4_identity (v : vec4) : transformMat4 v identity = v.
Proof. destruct v as [x y z w]. unfold transformMat4, identity; cbn. apply vec4_eq; ring. Qed.

Lemma map_div_w (v r : vec4) : map_div v (e3 v) = Some r -> e3 r = 1.
Proof.
  unfold map_div, fdiv. destruct (Req_dec_T (e3 v) 0) as [E|E]; [discriminate|].
  intros [= <-]. cbn. field. exact E.
Qed.

Lemma unproject_w (q : vec4) (MVP : mat4) (viewport r : vec4) :
  unproject q MVP viewport = Some r -> e3 r = 1.
Proof.
  unfold unproject. destruct (invert MVP); [|discriminate].
  destruct (fdiv _ (e2 viewport)); [|discriminate].
  destruct (fdiv _ (e3 viewport)); [|discriminate].
  apply map_div_w.
Qed.

(** The origin [[0, 0, 0, 1]] survives the round trip. *)
Lemma roundtrip_origin (MVP : mat4) (viewport : vec4) :
  det MVP <> 0 -> e2 viewport <> 0 -> e3 viewport <> 0 ->
  e3 (transformMat4 (Vec4 0 0 0 1) MVP) <> 0 ->
  exists org_win,
    project (Vec4 0 0 0 1) MVP viewport = Some org_win /\
    e3 org_win = 1 /\
    unproject org_win MVP viewport = Some (Vec4 0 0 0 1).
Proof.
  intros Hd Hw Hh Hc.
  destruct (roundtrip MVP viewport (Vec4 0 0 0 1) Hd Hw Hh Hc) as (q & Hq & Hq1 & Hu).
  { cbn. lra. }
  exists q. repeat split; try assumption.
  rewrite Hu. cbn. f_equal. apply vec4_eq; try reflexivity; field.
Qed.

(** A point at the centre of normalized device coordinates lands at the
    centre of the viewport and keeps its depth, and comes back. *)
Example project_centre :
  project (Vec4 0 0 0.5 1) identity (Vec4 0 0 800 600) =
    Some (Vec4 400 300 0.5 1).
Proof.
  rewrite project_Some; rewrite transformMat4_identity; cbn [e0 e1 e2 e3];
    [|lra].
  f_equal. apply vec4_eq; lra.
Qed.

Example unproject_centre :
  unproject (Vec4 400 300 0.5 1) identity (Vec4 0 0 800 600) =
    Some (Vec4 0 0 0.5 1).
Proof.
  unfold unproject. rewrite invert_identity. cbn [e0 e1 e2 e3].
  rewrite !fdiv_Some by lra. rewrite transformMat4_identity.
  rewrite map_div_Some by (cbn; lra). cbn [e0 e1 e2 e3].
  f_equal. apply vec4_eq; lra.
Qed.

(** C6 (as amended): for an invertible transform, a viewport of non-zero
    width and height and a point [p] whose clip-space [w] and own [w]
    are non-zero, [project] returns a window point on which [unproject]
    returns [p] divided by its [w]; this is [p] itself when [p] has
    [w = 1], the form [[x, y, z, 1]] that the source documents. *)
Theorem unproject_project (p : vec4) (MVP : mat4) (viewport : vec4) :
  det MVP <> 0 -> e2 viewport <> 0 -> e3 viewport <> 0 ->
  e3 (transformMat4 p MVP) <> 0 -> e3 p <> 0 ->
  exists q,
    project p MVP viewport = Some q /\
    unproject q MVP viewport =
      Some (Vec4 (e0 p / e3 p) (e1 p / e3 p) (e2 p / e3 p) 1) /\
    (e3 p = 1 -> unproject q MVP viewport = Some p).
Proof.
  intros Hd Hw Hh Hc Hp.
  destruct (roundtrip MVP viewport p Hd Hw Hh Hc Hp) as (q & Hq & _ & Hu).
  exists q. repeat split; try assumption.
  intros H1. rewrite Hu. destruct p as [x y z w]; cbn in *. subst w.
  f_equal. apply vec4_eq; try reflexivity; field.
Qed.

Lemma unproject_project_witness :
  exists q,
    project (Vec4 1 2 3 1) identity (Vec4 0 0 800 600) = Some q /\
    unproject q identity (Vec4 0 0 800 600) =
      Some (Vec4 (1 / 1) (2 / 1) (3 / 1) 1) /\
    (1 = 1 -> unproject q identity (Vec4 0 0 800 600) = Some (Vec4 1 2 3 1)).
Proof.
  apply (unproject_project (Vec4 1 2 3 1) identity (Vec4 0 0 800 600)).
  - rewrite det_identity. lra.
  - cbn. lra.
  - cbn. lra.
  - rewrite transformMat4_identity. cbn. lra.
  - cbn. lra.
Defined.

(** C6 as stated fails twice.  A point whose [w] is not one comes back
    scaled: [[2, 0, 0, 2]] through the identity and the unit viewport
    returns as [[1, 0, 0, 1]], with every [w] on the way non-zero.  And
    on a viewport of zero size [unproject] divides by the width. *)
Lemma unproject_project_counterexample :
  (det identity <> 0 /\
   e3 (transformMat4 (Vec4 2 0 0 2) identity) <> 0 /\
   exists q,
     project (Vec4 2 0 0 2) identity (Vec4 0 0 1 1) = Some q /\
     unproject q identity (Vec4 0 0 1 1) = Some (Vec4 1 0 0 1) /\
     unproject q identity (Vec4 0 0 1 1) <> Some (Vec4 2 0 0 2)) /\
  (e3 (transformMat4 (Vec4 0 0 0 1) identity) <> 0 /\
   exists q,
     project (Vec4 0 0 0 1) identity (Vec4 0 0 0 0) = Some q /\
     unproject q identity (Vec4 0 0 0 0) = None).
Proof.
  assert (Hd : det identity <> 0) by (rewrite det_identity; lra).
  split.
  - split; [exact Hd|]. split; [rewrite transformMat4_identity; cbn; lra|].
    destruct (roundtrip identity (Vec4 0 0 1 1) (Vec4 2 0 0 2)) as (q & Hq & _ & Hu);
      try exact Hd; try (rewrite ?transformMat4_identity; cbn; lra).
    exists q. split; [exact Hq|].
    assert (Hu' : unproject q identity (Vec4 0 0 1 1) = Some (Vec4 1 0 0 1)).
    { rewrite Hu. cbn. f_equal. apply vec4_eq; try reflexivity; field. }
    split; [exact Hu'|]. rewrite Hu'. intros [= H]. lra.
  - split; [rewrite transformMat4_identity; cbn; lra|].
    eexists. split.
    + apply project_Some. rewrite transformMat4_identity; cbn; lra.
    + unfold unproject. rewrite invert_identity. cbn. rewrite fdiv_zero. reflexivity.
Qed.

(** C7 (as amended): for an invertible transform and a viewport of
    non-zero width and height, with the clip-space [w] of the origin
    non-zero, the [x, y, z] of [unproject_vector] are the difference of
    the two unprojections wherever that difference is defined (and
    [unproject_vector] fails where it is not); the fourth element of its
    result is 1; and on the zero delta it returns a vector of 3D
    magnitude zero. *)
Theorem unproject_vector_difference (MVP : mat4) (viewport : vec4) :
  det MVP <> 0 -> e2 viewport <> 0 -> e3 viewport <> 0 ->
  e3 (transformMat4 (Vec4 0 0 0 1) MVP) <> 0 ->
  (forall vec_win,
     option_map xyz (unproject_vector vec_win MVP viewport) =
     unprojection_difference vec_win MVP viewport) /\
  (forall vec_win v,
     unproject_vector vec_win MVP viewport = Some v -> e3 v = 1) /\
  (exists v,
     unproject_vector (Vec3 0 0 0) MVP viewport = Some v /\
     norm (xyz v) = 0).
Proof.
  intros Hd Hw Hh Hc.
  destruct (roundtrip_origin MVP viewport Hd Hw Hh Hc) as (o & Ho & Ho1 & Hu).
  repeat split.
  - intros vec_win. unfold unproject_vector, unprojection_difference.
    rewrite Ho, Ho1, Hu.
    match goal with
    | |- context [unproject ?q MVP viewport] =>
        destruct (unproject q MVP viewport) as [a|]; [|reflexivity]
    end.
    cbn. f_equal. apply vec3_eq; ring.
  - intros vec_win v. unfold unproject_vector. rewrite Ho.
    apply unproject_w.
  - exists (Vec4 0 0 0 1). split.
    + unfold unproject_vector. rewrite Ho. rewrite <- Hu. f_equal.
      destruct o as [a b c d]; cbn in *. subst d.
      apply vec4_eq; try reflexivity; ring.
    + unfold norm; cbn. replace (0 * 0 + 0 * 0 + 0 * 0) with 0 by ring.
      apply sqrt_0.
Qed.

Lemma unproject_vector_difference_witness :
  (forall vec_win,
     option_map xyz (unproject_vector vec_win identity (Vec4 0 0 800 600)) =
     unprojection_difference vec_win identity (Vec4 0 0 800 600)) /\
  (forall vec_win v,
     unproject_vector vec_win identity (Vec4 0 0 800 600) = Some v ->
     e3 v = 1) /\
  (exists v,
     unproject_vector (Vec3 0 0 0) identity (Vec4 0 0 800 600) = Some v /\
     norm (xyz v) = 0).
Proof.
  apply (unproject_vector_difference identity (Vec4 0 0 800 600)).
  - rewrite det_identity. lra.
  - cbn. lra.
  - cbn. lra.
  - rewrite transformMat4_identity. cbn. lra.
Defined.

(** C7 as stated fails on a viewport of zero size: with the identity
    transform, under which the origin has clip-space [w] one,
    [unproject_vector] on the zero delta divides zero by the viewport's
    width and returns no vector of magnitude zero. *)
Lemma unproject_vector_counterexample :
  det identity <> 0 /\
  e3 (transformMat4 (Vec4 0 0 0 1) identity) <> 0 /\
  unproject_vector (Vec3 0 0 0) identity (Vec4 0 0 0 0) = None /\
  ~ (exists v,
       unproject_vector (Vec3 0 0 0) identity (Vec4 0 0 0 0) = Some v /\
       norm (xyz v) = 0).
Proof.
  assert (H : unproject_vector (Vec3 0 0 0) identity (Vec4 0 0 0 0) = None).
  { unfold unproject_vector.
    rewrite project_Some by (rewrite transformMat4_identity; cbn; lra).
    unfold unproject. rewrite invert_identity. cbn. rewrite fdiv_zero. reflexivity. }
  split; [rewrite det_identity; lra|].
  split; [rewrite transformMat4_identity; cbn; lra|].
  split; [exact H|].
  intros (v & Hv & _). rewrite H in Hv. discriminate.
Qed.

(** C10: the viewport mapping touches only the first two elements.
    [project] scales and offsets [x] and [y] of the point in normalized
    device coordinates and returns its depth and [w] as they are,
    whatever the viewport; [unproject] undoes the mapping on [x] and [y]
    and hands the third and fourth elements of its input on as
    normalized device coordinates. *)
Theorem viewport_maps_x_and_y_only (MVP : mat4) (viewport : vec4) :
  (forall p,
     project p MVP viewport =
       n <- ndc p MVP ;;
       Some (Vec4 ((0.5 * e0 n + 0.5) * e2 viewport + e0 viewport)
                  ((0.5 * e1 n + 0.5) * e3 viewport + e1 viewport)
                  (e2 n) (e3 n))) /\
  (forall p viewport',
     option_map e2 (project p MVP viewport) = option_map e2 (ndc p MVP) /\
     option_map e2 (project p MVP viewport') = option_map e2 (project p MVP viewport)) /\
  (forall q,
     unproject q MVP viewport =
       nx <- fdiv (2.0 * (e0 q - e0 viewport)) (e2 viewport) ;;
       ny <- fdiv (2.0 * (e1 q - e1 viewport)) (e3 viewport) ;;
       from_ndc (Vec4 (nx - 1.0) (ny - 1.0) (e2 q) (e3 q)) MVP).
Proof.
  assert (Hz : forall p vp, option_map e2 (project p MVP vp) = option_map e2 (ndc p MVP)).
  { intros p vp. unfold project, ndc. cbv zeta. destruct (map_div _ _); reflexivity. }
  split; [|split].
  - intros p. unfold project, ndc. cbv zeta. destruct (map_div _ _); reflexivity.
  - intros p viewport'. rewrite !Hz. split; reflexivity.
  - apply unproject_as_from_ndc.
Qed.

(** ** Articulated transform composer *)

(** The rotation about the fixed axis [[0, 0, 1]]: [m] times the
    rotation about Z.  The axis has length one, so its normalisation
    divides by one. *)
Lemma rotate_Z (m : mat4) (a : R) :
  rotate m (Vec3 0 0 1) a =
    Some (Mat4 (cos a * m00 m + sin a * m10 m) (cos a * m01 m + sin a * m11 m)
               (cos a * m02 m + sin a * m12 m) (cos a * m03 m + sin a * m13 m)
               (cos a * m10 m - sin a * m00 m) (cos a * m11 m - sin a * m01 m)
               (cos a * m12 m - sin a * m02 m) (cos a * m13 m - sin a * m03 m)
               (m20 m) (m21 m) (m22 m) (m23 m)
               (m30 m) (m31 m) (m32 m) (m33 m)).
Proof.
  unfold rotate. cbn [vx vy vz].
  replace (0 * 0 + 0 * 0 + 1 * 1) with 1 by ring. rewrite sqrt_1.
  rewrite !fdiv_Some by lra. do 2 f_equal; field.
Qed.

Ltac composer :=
  unfold computeBarrelPivot; cbv zeta; rewrite rotate_Z;
  cbv [translate rotateY clone identity transformMat4
       m00 m01 m02 m03 m10 m11 m12 m13 m20 m21 m22 m23 m30 m31 m32 m33
       e0 e1 e2 e3 vx vy vz
       position rotation turretRotation barrelElevation].

(** The world point in closed form, when the barrel is level and the
    join pivot is the origin: the body transform applied to the local
    end point turned about the turret axis. *)
Lemma computeBarrelPivot_level (px py pz rot turret : R) (tp bp : vec3) :
  computeBarrelPivot (MkTankState (Vec3 px py pz) rot turret 0)
                     tp bp (Vec3 0 0 0) =
    let lx := cos turret * (vx bp + vx tp)
              + sin turret * (vz bp + vz tp) - vx tp in
    let ly := vy bp - 0.46 in
    let lz := - sin turret * (vx bp + vx tp)
              + cos turret * (vz bp + vz tp) - vz tp in
    Some (Vec3 (px + cos rot * lx + sin rot * lz)
               (0.46 + ly)
               (pz - sin rot * lx + cos rot * lz)).
Proof.
  destruct tp as [tx ty tz], bp as [bx by' bz].
  composer. rewrite cos_0, sin_0. literals.
  f_equal. apply vec3_eq; ring.
Qed.

(** A quarter turn of the turret takes the local X axis to the world's
    negative Z axis. *)
Example computeBarrelPivot_quarter_turn :
  computeBarrelPivot (MkTankState (Vec3 0 0 0) 0 (PI / 2) 0)
                     (Vec3 0 0 0) (Vec3 1 0.46 0) (Vec3 0 0 0)
  = Some (Vec3 0 0.46 (-1)).
Proof.
  rewrite computeBarrelPivot_level. cbv zeta. cbn [vx vy vz].
  rewrite cos_0, sin_0, cos_PI2, sin_PI2.
  f_equal. apply vec3_eq; lra.
Qed.


(** C8: the Y of [tankState.position] is not read.  Two states that
    differ only there give the same world point, and a world point is
    returned for every input. *)
Theorem computeBarrelPivot_ignores_position_y
    (px py py' pz rot turret elevation : R)
    (turretPivot barrelPivot joinPivot : vec3) :
  computeBarrelPivot (MkTankState (Vec3 px py pz) rot turret elevation)
                     turretPivot barrelPivot joinPivot =
  computeBarrelPivot (MkTankState (Vec3 px py' pz) rot turret elevation)
                     turretPivot barrelPivot joinPivot
  /\ exists worldEnd,
       computeBarrelPivot (MkTankState (Vec3 px py pz) rot turret elevation)
                          turretPivot barrelPivot joinPivot
       = Some worldEnd.
Proof.
  split.
  - unfold computeBarrelPivot. cbn [position rotation turretRotation barrelElevation vx vy vz].
    reflexivity.
  - composer. eexists. reflexivity.
Qed.

(** C9 (as amended): with the join pivot at the origin and the barrel
    level, a turret rotation of pi reflects the X and Z of the world
    point of turret rotation zero through the vertical axis on which the
    body transform places [-turretPivot], and keeps its Y.  The X and Z
    are negated when that axis is the world's: when the X and Z of both
    [position] and [turretPivot] are zero. *)
Theorem turret_half_turn (px py pz rot : R) (turretPivot barrelPivot : vec3) :
  let cx := px - (cos rot * vx turretPivot + sin rot * vz turretPivot) in
  let cz := pz - (- sin rot * vx turretPivot + cos rot * vz turretPivot) in
  exists w0 wpi,
    computeBarrelPivot (MkTankState (Vec3 px py pz) rot 0 0)
                       turretPivot barrelPivot (Vec3 0 0 0) = Some w0 /\
    computeBarrelPivot (MkTankState (Vec3 px py pz) rot PI 0)
                       turretPivot barrelPivot (Vec3 0 0 0) = Some wpi /\
    vx wpi - cx = - (vx w0 - cx) /\
    vz wpi - cz = - (vz w0 - cz) /\
    vy wpi = vy w0 /\
    (px = 0 -> pz = 0 -> vx turretPivot = 0 -> vz turretPivot = 0 ->
     vx wpi = - vx w0 /\ vz wpi = - vz w0).
Proof.
  intros cx cz. subst cx cz.
  destruct turretPivot as [tx ty tz], barrelPivot as [bx by' bz].
  rewrite !computeBarrelPivot_level. cbv zeta.
  rewrite cos_0, sin_0, cos_PI, sin_PI.
  do 2 eexists. split; [reflexivity|]. split; [reflexivity|].
  cbn [vx vy vz]. repeat split; intros; subst; ring.
Qed.

Lemma turret_half_turn_witness :
  exists w0 wpi,
    computeBarrelPivot (MkTankState (Vec3 0 5 0) 0 0 0)
                       (Vec3 0 1 0) (Vec3 2 1 3) (Vec3 0 0 0) = Some w0 /\
    computeBarrelPivot (MkTankState (Vec3 0 5 0) 0 PI 0)
                       (Vec3 0 1 0) (Vec3 2 1 3) (Vec3 0 0 0) = Some wpi /\
    vx wpi = - vx w0 /\ vz wpi = - vz w0.
Proof.
  destruct (turret_half_turn 0 5 0 0 (Vec3 0 1 0) (Vec3 2 1 3))
    as (w0 & wpi & H0 & Hpi & _ & _ & _ & Hneg).
  exists w0, wpi. split; [exact H0|]. split; [exact Hpi|].
  apply Hneg; reflexivity.
Defined.

(** C9 as stated fails away from the world's vertical axis.  A tank at
    [(1, 0, 0)] with every pivot at the origin has its barrel point at
    X = 1 for both turret rotations; and a tank at the origin with
    turret pivot [(1, 0, 0)] has it at X = 0 for rotation zero and at
    X = -2 for rotation pi, the two being mirrored in X = -1. *)
Lemma turret_half_turn_counterexample :
  (exists w0 wpi,
     computeBarrelPivot (MkTankState (Vec3 1 0 0) 0 0 0)
                        (Vec3 0 0 0) (Vec3 0 0 0) (Vec3 0 0 0) = Some w0 /\
     computeBarrelPivot (MkTankState (Vec3 1 0 0) 0 PI 0)
                        (Vec3 0 0 0) (Vec3 0 0 0) (Vec3 0 0 0) = Some wpi /\
     vx w0 = 1 /\ vx wpi = 1 /\ vx wpi <> - vx w0) /\
  (exists w0 wpi,
     computeBarrelPivot (MkTankState (Vec3 0 0 0) 0 0 0)
                        (Vec3 1 0 0) (Vec3 0 0 0) (Vec3 0 0 0) = Some w0 /\
     computeBarrelPivot (MkTankState (Vec3 0 0 0) 0 PI 0)
                        (Vec3 1 0 0) (Vec3 0 0 0) (Vec3 0 0 0) = Some wpi /\
     vx w0 = 0 /\ vx wpi = -2 /\ vx wpi <> - vx w0).
Proof.
  split.
  - rewrite !computeBarrelPivot_level. cbv zeta. cbn [vx vy vz].
    rewrite cos_0, sin_0, cos_PI, sin_PI.
    do 2 eexists. split; [reflexivity|]. split; [reflexivity|].
    cbn [vx vy vz]. repeat split; lra.
  - rewrite !computeBarrelPivot_level. cbv zeta. cbn [vx vy vz].
    rewrite cos_0, sin_0, cos_PI, sin_PI.
    do 2 eexists. split; [reflexivity|]. split; [reflexivity|].
    cbn [vx vy vz]. repeat split; lra.
Qed.

(** ** Tangent-space generator *)

(** *** Flat arrays *)

Lemma vertex3_lt (a : list R) (i : nat) (v : vec3) :
  vertex3 a i = Some v -> (i * 3 + 2 < length a)%nat.
Proof.
  unfold vertex3. intros H.
  destruct (a !! (i * 3)%nat); [|discriminate].
  destruct (a !! (i * 3 + 1)%nat); [|discriminate].
  destruct (a !! (i * 3 + 2)%nat) eqn:E; [|discriminate].
  eapply lookup_lt_Some; exact E.
Qed.

Lemma vertex3_is_Some (a : list R) (i : nat) :
  (i * 3 + 2 < length a)%nat -> exists v, vertex3 a i = Some v.
Proof.
  intros H. unfold vertex3.
  destruct (lookup_lt_is_Some_2 a (i * 3)) as [x ->]; [lia|].
  destruct (lookup_lt_is_Some_2 a (i * 3 + 1)) as [y ->]; [lia|].
  destruct (lookup_lt_is_Some_2 a (i * 3 + 2)) as [z ->]; [lia|].
  eauto.
Qed.

Lemma vertex2_is_Some (a : list R) (i : nat) :
  (i * 2 + 1 < length a)%nat -> exists t, vertex2 a i = Some t.
Proof.
  intros H. unfold vertex2.
  destruct (lookup_lt_is_Some_2 a (i * 2)) as [x ->]; [lia|].
  destruct (lookup_lt_is_Some_2 a (i * 2 + 1)) as [y ->]; [lia|].
  eauto.
Qed.

Lemma length_set_vertex3 (a : list R) (i : nat) (v : vec3) :
  length (set_vertex3 a i v) = length a.
Proof. unfold set_vertex3. rewrite !length_insert. reflexivity. Qed.

Lemma length_add_at (a : list R) (i : nat) (x : R) :
  length (add_at a i x) = length a.
Proof. unfold add_at. destruct (a !! i); [apply length_insert|reflexivity]. Qed.

Lemma length_add_vertex3 (a : list R) (i : nat) (v : vec3) :
  length (add_vertex3 a i v) = length a.
Proof. unfold add_vertex3. rewrite !length_add_at. reflexivity. Qed.

Lemma vertex3_set_eq (a : list R) (i : nat) (v : vec3) :
  (i * 3 + 2 < length a)%nat -> vertex3 (set_vertex3 a i v) i = Some v.
Proof.
  intros H. unfold vertex3, set_vertex3.
  rewrite (list_lookup_insert_ne _ (i * 3 + 2) (i * 3)) by lia.
  rewrite (list_lookup_insert_ne _ (i * 3 + 1) (i * 3)) by lia.
  rewrite list_lookup_insert_eq by lia.
  rewrite (list_lookup_insert_ne _ (i * 3 + 2) (i * 3 + 1)) by lia.
  rewrite list_lookup_insert_eq by (rewrite length_insert; lia).
  rewrite list_lookup_insert_eq by (rewrite !length_insert; lia).
  destruct v; reflexivity.
Qed.

Lemma vertex3_set_ne (a : list R) (i j : nat) (v : vec3) :
  i <> j -> vertex3 (set_vertex3 a i v) j = vertex3 a j.
Proof.
  intros H. unfold vertex3, set_vertex3.
  rewrite !list_lookup_insert_ne by lia. reflexivity.
Qed.

Lemma vertex3_replicate (n i : nat) :
  (i < n)%nat -> vertex3 (replicate (n * 3) 0) i = Some (Vec3 0 0 0).
Proof.
  intros H. unfold vertex3.
  rewrite !lookup_replicate_2 by lia. reflexivity.
Qed.

(** *** Orthogonalisation and normalisation *)

Lemma sum_squares_nonneg (x y z : R) : 0 <= x * x + y * y + z * z.
Proof. nra. Qed.

Lemma sum_squares_zero (x y z : R) :
  x * x + y * y + z * z = 0 -> x = 0 /\ y = 0 /\ z = 0.
Proof. intros H. repeat split; nra. Qed.

Lemma norm_zero (v : vec3) : norm v = 0 -> v = Vec3 0 0 0.
Proof.
  destruct v as [x y z]. unfold norm; cbn. intros H.
  apply sqrt_eq_0 in H; [|apply sum_squares_nonneg].
  apply sum_squares_zero in H. destruct H as (-> & -> & ->). reflexivity.
Qed.

Lemma norm_unit_dot (n : vec3) : norm n = 1 -> dot n n = 1.
Proof.
  unfold norm, dot. intros H.
  rewrite <- (sqrt_sqrt (vx n * vx n + vy n * vy n + vz n * vz n))
    by apply sum_squares_nonneg.
  rewrite H. ring.
Qed.

Lemma dot_reject (n t : vec3) : dot n n = 1 -> dot (reject n t) n = 0.
Proof.
  destruct n as [nx ny nz], t as [tx ty tz]. unfold dot, reject; cbn.
  intros H.
  replace ((tx - (nx * tx + ny * ty + nz * tz) * nx) * nx +
           (ty - (nx * tx + ny * ty + nz * tz) * ny) * ny +
           (tz - (nx * tx + ny * ty + nz * tz) * nz) * nz)
    with ((nx * tx + ny * ty + nz * tz) * (1 - (nx * nx + ny * ny + nz * nz)))
    by ring.
  rewrite H. ring.
Qed.

(** The normalisation never divides by zero. *)
Lemma orthonormalize_Some (n t : vec3) : exists t', orthonormalize n t = Some t'.
Proof.
  unfold orthonormalize. cbv zeta. destruct (Rgt_dec _ 0.0) as [H|H]; [|eauto].
  rewrite lit_0_0 in H. rewrite !fdiv_Some by lra. eauto.
Qed.

Lemma orthonormalize_zero_length (n t : vec3) :
  norm (reject n t) = 0 -> orthonormalize n t = Some (Vec3 0 0 0).
Proof.
  intros H. unfold orthonormalize. cbv zeta. fold (norm (reject n t)).
  rewrite H. destruct (Rgt_dec 0 0.0) as [H0|H0].
  - rewrite lit_0_0 in H0. lra.
  - f_equal. apply norm_zero. exact H.
Qed.

Lemma orthonormalize_frame (n t t' : vec3) :
  norm n = 1 -> orthonormalize n t = Some t' -> t' <> Vec3 0 0 0 ->
  dot t' n = 0 /\ norm t' = 1.
Proof.
  intros Hn Ho Hnz. apply norm_unit_dot in Hn.
  pose proof (dot_reject n t Hn) as Hdot.
  unfold orthonormalize in Ho. cbv zeta in Ho.
  set (r := reject n t) in *. clearbody r. destruct r as [x y z].
  cbn [vx vy vz] in Ho. unfold dot in Hdot. cbn [vx vy vz] in Hdot.
  pose proof (sum_squares_nonneg x y z) as Hnn.
  set (l := sqrt (x * x + y * y + z * z)) in *.
  assert (Hsq : l * l = x * x + y * y + z * z) by (apply sqrt_sqrt, Hnn).
  destruct (Rgt_dec l 0.0) as [H|H]; rewrite lit_0_0 in H.
  - rewrite !fdiv_Some in Ho by lra. injection Ho as <-.
    unfold dot, norm; cbn [vx vy vz]. split.
    + replace (x / l * vx n + y / l * vy n + z / l * vz n)
        with ((x * vx n + y * vy n + z * vz n) / l) by (field; lra).
      rewrite Hdot. field. lra.
    + replace (x / l * (x / l) + y / l * (y / l) + z / l * (z / l))
        with ((x * x + y * y + z * z) / (l * l)) by (field; lra).
      rewrite <- Hsq.
      replace (l * l / (l * l)) with 1 by (field; lra).
      apply sqrt_1.
  - exfalso. apply Hnz. injection Ho as <-.
    pose proof (sqrt_pos (x * x + y * y + z * z)) as Hp. fold l in Hp.
    assert (Hl : l = 0) by lra. rewrite Hl in Hsq.
    symmetry in Hsq. rewrite Rmult_0_l in Hsq.
    apply sum_squares_zero in Hsq. destruct Hsq as (-> & -> & ->). reflexivity.
Qed.

Lemma reject_zero (n : vec3) : reject n (Vec3 0 0 0) = Vec3 0 0 0.
Proof. unfold reject; cbn. apply vec3_eq; ring. Qed.

Lemma orthonormalize_zero (n : vec3) :
  orthonormalize n (Vec3 0 0 0) = Some (Vec3 0 0 0).
Proof.
  apply orthonormalize_zero_length. rewrite reject_zero.
  unfold norm; cbn. replace (0 * 0 + 0 * 0 + 0 * 0) with 0 by ring.
  apply sqrt_0.
Qed.

(** *** The loop over the vertices *)

Lemma finalize_vertex_spec (normals : list R) (acc acc' : buffers) (i : nat) :
  finalize_vertex normals acc i = Some acc' ->
  length (tangents acc') = length (tangents acc) /\
  length (bitangents acc') = length (bitangents acc) /\
  finalized_at normals acc acc' i /\
  (forall j, j <> i ->
     vertex3 (tangents acc') j = vertex3 (tangents acc) j /\
     vertex3 (bitangents acc') j = vertex3 (bitangents acc) j).
Proof.
  unfold finalize_vertex. cbv zeta. intros H.
  destruct (vertex3 normals i) as [n|] eqn:En; [|discriminate].
  destruct (vertex3 (tangents acc) i) as [t|] eqn:Et; [|discriminate].
  destruct (orthonormalize n t) as [t'|] eqn:Et'; [|discriminate].
  destruct (vertex3 (bitangents acc) i) as [b|] eqn:Eb; [|discriminate].
  destruct (orthonormalize n b) as [b'|] eqn:Eb'; [|discriminate].
  injection H as <-. cbn [tangents bitangents].
  rewrite !length_set_vertex3.
  split; [reflexivity|]. split; [reflexivity|]. split.
  - exists n, t, b, t', b'. cbn [tangents bitangents].
    repeat split; try assumption.
    + apply vertex3_set_eq. eapply vertex3_lt; exact Et.
    + apply vertex3_set_eq. eapply vertex3_lt; exact Eb.
  - intros j Hj. split; apply vertex3_set_ne; congruence.
Qed.

Lemma finalize_vertex_Some (normals : list R) (acc : buffers) (i : nat) :
  (i * 3 + 2 < length normals)%nat ->
  (i * 3 + 2 < length (tangents acc))%nat ->
  (i * 3 + 2 < length (bitangents acc))%nat ->
  exists acc', finalize_vertex normals acc i = Some acc'.
Proof.
  intros Hn Ht Hb. unfold finalize_vertex. cbv zeta.
  destruct (vertex3_is_Some _ _ Hn) as [n ->].
  destruct (vertex3_is_Some _ _ Ht) as [t ->].
  destruct (orthonormalize_Some n t) as [t' ->].
  destruct (vertex3_is_Some _ _ Hb) as [b ->].
  destruct (orthonormalize_Some n b) as [b' ->].
  eauto.
Qed.

(** After the vertices [s, ..., s + count - 1] have been visited, each
    of them holds its finalised vectors and every other vertex is as it
    was. *)
Lemma finalize_seq (normals : list R) (count : nat) :
  forall (s : nat) (acc out : buffers),
    finalize normals (seq s count) acc = Some out ->
    length (tangents out) = length (tangents acc) /\
    length (bitangents out) = length (bitangents acc) /\
    (forall i, (s <= i < s + count)%nat -> finalized_at normals acc out i) /\
    (forall i, (i < s \/ s + count <= i)%nat ->
       vertex3 (tangents out) i = vertex3 (tangents acc) i /\
       vertex3 (bitangents out) i = vertex3 (bitangents acc) i).
Proof.
  induction count as [|count IH]; intros s acc out H; cbn in H.
  - injection H as <-. repeat split; try reflexivity. intros i Hi. lia.
  - destruct (finalize_vertex normals acc s) as [acc1|] eqn:E1; [|discriminate].
    apply finalize_vertex_spec in E1. destruct E1 as (Lt1 & Lb1 & F1 & O1).
    apply IH in H. destruct H as (Lt & Lb & F & O).
    split; [congruence|]. split; [congruence|]. split.
    + intros i Hi. destruct (decide (i = s)) as [->|Hne].
      * destruct F1 as (n & t & b & t' & b' & Hn & Ht & Hb & Ht' & Hb' & Ot & Ob).
        destruct (O s) as [Ost Osb]; [lia|].
        exists n, t, b, t', b'. repeat split; try assumption; congruence.
      * destruct (F i) as (n & t & b & t' & b' & Hn & Ht & Hb & Ht' & Hb' & Ot & Ob);
          [lia|].
        destruct (O1 i Hne) as [E1t E1b].
        exists n, t, b, t', b'. repeat split; try assumption; congruence.
    + intros i Hi.
      destruct (O i) as [Ot Ob]; [lia|].
      destruct (O1 i) as [E1t E1b]; [lia|].
      split; congruence.
Qed.

Lemma finalize_Some (normals : list R) (count : nat) :
  forall (s : nat) (acc : buffers),
    ((s + count) * 3 <= length normals)%nat ->
    ((s + count) * 3 <= length (tangents acc))%nat ->
    ((s + count) * 3 <= length (bitangents acc))%nat ->
    exists out, finalize normals (seq s count) acc = Some out.
Proof.
  induction count as [|count IH]; intros s acc Hn Ht Hb; cbn.
  - eauto.
  - destruct (finalize_vertex_Some normals acc s) as [acc1 E1]; try lia.
    rewrite E1. apply finalize_vertex_spec in E1. destruct E1 as (Lt1 & Lb1 & _).
    apply IH; lia.
Qed.

(** *** The loop over the triangles *)

Lemma triangle_deltas_Some (positions uvs : list R) (i0 i1 i2 n : nat) :
  length positions = (n * 3)%nat -> length uvs = (n * 2)%nat ->
  (i0 < n)%nat -> (i1 < n)%nat -> (i2 < n)%nat ->
  exists d, triangle_deltas positions uvs i0 i1 i2 = Some d.
Proof.
  intros Hp Hu H0 H1 H2. unfold triangle_deltas.
  destruct (vertex3_is_Some positions i0) as [p0 ->]; [lia|].
  destruct (vertex3_is_Some positions i1) as [p1 ->]; [lia|].
  destruct (vertex3_is_Some positions i2) as [p2 ->]; [lia|].
  destruct (vertex2_is_Some uvs i0) as [t0 ->]; [lia|].
  destruct (vertex2_is_Some uvs i1) as [t1 ->]; [lia|].
  destruct (vertex2_is_Some uvs i2) as [t2 ->]; [lia|].
  eauto.
Qed.

Lemma tangent_bitangent_Some (d : deltas) :
  denom d <> 0 -> exists T B, tangent_bitangent d = Some (T, B).
Proof.
  intros H. unfold tangent_bitangent. rewrite fdiv_Some by exact H. eauto.
Qed.

Lemma accumulate_triangle_length (positions uvs : list R) (acc acc' : buffers)
    (i0 i1 i2 : nat) :
  accumulate_triangle positions uvs acc i0 i1 i2 = Some acc' ->
  length (tangents acc') = length (tangents acc) /\
  length (bitangents acc') = length (bitangents acc).
Proof.
  unfold accumulate_triangle.
  destruct (triangle_deltas positions uvs i0 i1 i2) as [d|]; [|discriminate].
  destruct (Req_dec_T (denom d) 0.0).
  - intros [= <-]. split; reflexivity.
  - destruct (tangent_bitangent d) as [TB|]; [|discriminate].
    intros [= <-]. cbn [tangents bitangents].
    rewrite !length_add_vertex3. split; reflexivity.
Qed.

Lemma accumulate_triangle_Some (positions uvs : list R) (acc : buffers)
    (i0 i1 i2 n : nat) :
  length positions = (n * 3)%nat -> length uvs = (n * 2)%nat ->
  (i0 < n)%nat -> (i1 < n)%nat -> (i2 < n)%nat ->
  exists acc', accumulate_triangle positions uvs acc i0 i1 i2 = Some acc'.
Proof.
  intros Hp Hu H0 H1 H2. unfold accumulate_triangle.
  destruct (triangle_deltas_Some positions uvs i0 i1 i2 n) as [d ->]; try assumption.
  destruct (Req_dec_T (denom d) 0.0) as [E|E]; [eauto|].
  rewrite lit_0_0 in E.
  destruct (tangent_bitangent_Some d E) as (T & B & ->). eauto.
Qed.

Lemma accumulate_Some (positions uvs : list R) (n triangles : nat) :
  length positions = (n * 3)%nat -> length uvs = (n * 2)%nat ->
  forall (indices : list nat) (acc : buffers),
    length indices = (triangles * 3)%nat ->
    Forall (fun i => (i < n)%nat) indices ->
    exists acc',
      accumulate positions uvs indices acc = Some acc' /\
      length (tangents acc') = length (tangents acc) /\
      length (bitangents acc') = length (bitangents acc).
Proof.
  intros Hp Hu. induction triangles as [|k IH]; intros indices acc Hl Hi.
  - destruct indices; [|discriminate]. cbn. eauto.
  - destruct indices as [|i0 [|i1 [|i2 rest]]]; try discriminate.
    cbn in Hl. apply Forall_cons in Hi as [H0 Hi].
    apply Forall_cons in Hi as [H1 Hi]. apply Forall_cons in Hi as [H2 Hi].
    cbn [accumulate].
    destruct (accumulate_triangle_Some positions uvs acc i0 i1 i2 n)
      as [acc1 E1]; try assumption.
    rewrite E1. apply accumulate_triangle_length in E1. destruct E1 as [Lt Lb].
    destruct (IH rest acc1) as (acc' & -> & Lt' & Lb'); [lia|assumption|].
    exists acc'. repeat split; congruence.
Qed.

(** On a well-formed mesh [computeTangents] returns its two arrays, of
    the size of [positions], and every vertex holds the finalised
    vectors of what the triangles accumulated. *)
Lemma computeTangents_spec (positions normals uvs : list R)
    (indices : list nat) (vertexCount : nat) :
  well_formed positions normals uvs indices vertexCount ->
  exists acc out,
    accumulate positions uvs indices
      {| tangents := replicate (vertexCount * 3) 0;
         bitangents := replicate (vertexCount * 3) 0 |} = Some acc /\
    computeTangents positions normals uvs indices = Some out /\
    length (tangents out) = (vertexCount * 3)%nat /\
    length (bitangents out) = (vertexCount * 3)%nat /\
    (forall i, (i < vertexCount)%nat -> finalized_at normals acc out i).
Proof.
  intros (Hp & Hn & Hu & [k Hk] & Hi). unfold computeTangents. cbv zeta.
  rewrite Hp, Nat.div_mul by lia.
  destruct (accumulate_Some positions uvs vertexCount k Hp Hu indices
              {| tangents := replicate (vertexCount * 3) 0;
                 bitangents := replicate (vertexCount * 3) 0 |} Hk Hi)
    as (acc & Ha & Lt & Lb).
  cbn [tangents bitangents] in Lt, Lb. rewrite length_replicate in Lt, Lb.
  rewrite Ha.
  destruct (finalize_Some normals vertexCount 0 acc) as [out Ho]; try lia.
  exists acc, out. split; [reflexivity|]. split; [exact Ho|].
  apply finalize_seq in Ho. destruct Ho as (Lt' & Lb' & F & _).
  split; [congruence|]. split; [congruence|].
  intros i Hlt. apply F. lia.
Qed.

Lemma orthonormalize_unit (n t : vec3) :
  dot n t = 0 -> norm t = 1 -> orthonormalize n t = Some t.
Proof.
  intros Hd Hn. unfold orthonormalize. cbv zeta.
  assert (Hr : reject n t = t).
  { destruct n as [nx ny nz], t as [tx ty tz].
    unfold reject, dot in *; cbn [vx vy vz] in *.
    rewrite Hd. apply vec3_eq; ring. }
  rewrite Hr. fold (norm t). rewrite Hn.
  destruct (Rgt_dec 1 0.0) as [H|H]; [|rewrite lit_0_0 in H; lra].
  rewrite !fdiv_Some by lra. f_equal. destruct t as [tx ty tz]; cbn.
  apply vec3_eq; field.
Qed.

Lemma cons_eq (x y : R) (l k : list R) : x = y -> l = k -> x :: l = y :: k.
Proof. congruence. Qed.

Lemma norm_axis_x : norm (Vec3 1 0 0) = 1.
Proof.
  unfold norm; cbn. replace (1 * 1 + 0 * 0 + 0 * 0) with 1 by ring.
  apply sqrt_1.
Qed.

Lemma norm_axis_y : norm (Vec3 0 1 0) = 1.
Proof.
  unfold norm; cbn. replace (0 * 0 + 1 * 1 + 0 * 0) with 1 by ring.
  apply sqrt_1.
Qed.

Lemma triangle_deltas_reads (positions uvs : list R) (i0 i1 i2 : nat)
    (p0 p1 p2 : vec3) (t0 t1 t2 : R * R) :
  vertex3 positions i0 = Some p0 -> vertex3 positions i1 = Some p1 ->
  vertex3 positions i2 = Some p2 ->
  vertex2 uvs i0 = Some t0 -> vertex2 uvs i1 = Some t1 ->
  vertex2 uvs i2 = Some t2 ->
  triangle_deltas positions uvs i0 i1 i2 =
    Some {| E1 := sub3 p1 p0; E2 := sub3 p2 p0;
            dU1 := fst t1 - fst t0; dV1 := snd t1 - snd t0;
            dU2 := fst t2 - fst t0; dV2 := snd t2 - snd t0 |}.
Proof.
  intros H0 H1 H2 Hu0 Hu1 Hu2. unfold triangle_deltas.
  rewrite H0, H1, H2, Hu0, Hu1, Hu2. reflexivity.
Qed.

Lemma accumulate_triangle_skip (positions uvs : list R) (acc : buffers)
    (i0 i1 i2 : nat) (d : deltas) :
  triangle_deltas positions uvs i0 i1 i2 = Some d -> denom d = 0 ->
  accumulate_triangle positions uvs acc i0 i1 i2 = Some acc.
Proof.
  intros Hd H0. unfold accumulate_triangle. rewrite Hd.
  destruct (Req_dec_T (denom d) 0.0) as [E|E]; [reflexivity|].
  rewrite lit_0_0 in E. contradiction.
Qed.

(** The right triangle in the plane Z = 0 whose texture coordinates are
    its X and Y: the tangent is the X axis and the bitangent the Y axis
    at each of its vertices. *)
Example computeTangents_unit_triangle :
  computeTangents [0; 0; 0; 1; 0; 0; 0; 1; 0] [0; 0; 1; 0; 0; 1; 0; 0; 1]
                  [0; 0; 1; 0; 0; 1] [0; 1; 2]%nat =
    Some {| tangents := [1; 0; 0; 1; 0; 0; 1; 0; 0];
            bitangents := [0; 1; 0; 0; 1; 0; 0; 1; 0] |}.
Proof.
  assert (Ha :
    accumulate_triangle [0; 0; 0; 1; 0; 0; 0; 1; 0] [0; 0; 1; 0; 0; 1]
      (Buffers [0; 0; 0; 0; 0; 0; 0; 0; 0] [0; 0; 0; 0; 0; 0; 0; 0; 0]) 0 1 2
    = Some (Buffers [1; 0; 0; 1; 0; 0; 1; 0; 0] [0; 1; 0; 0; 1; 0; 0; 1; 0])).
  { unfold accumulate_triangle.
    rewrite (triangle_deltas_reads _ _ 0 1 2
               (Vec3 0 0 0) (Vec3 1 0 0) (Vec3 0 1 0) (0, 0) (1, 0) (0, 1))
      by reflexivity.
    unfold denom, tangent_bitangent, denom, sub3;
      cbn [E1 E2 dU1 dV1 dU2 dV2 fst snd vx vy vz].
    destruct (Req_dec_T _ 0.0) as [E|E]; [rewrite lit_0_0 in E; lra|].
    rewrite fdiv_Some by lra. cbn [fst snd tangents bitangents].
    unfold add_vertex3, add_at;
      cbn [lookup list_lookup insert list_insert Nat.mul Nat.add vx vy vz].
    rewrite lit_1_0.
    do 2 f_equal; repeat (apply cons_eq; [field; lra|]); reflexivity. }
  assert (Ht : orthonormalize (Vec3 0 0 1) (Vec3 1 0 0) = Some (Vec3 1 0 0)).
  { apply orthonormalize_unit; [unfold dot; cbn; ring|apply norm_axis_x]. }
  assert (Hb : orthonormalize (Vec3 0 0 1) (Vec3 0 1 0) = Some (Vec3 0 1 0)).
  { apply orthonormalize_unit; [unfold dot; cbn; ring|apply norm_axis_y]. }
  unfold computeTangents. cbv zeta.
  change (replicate _ 0) with [0; 0; 0; 0; 0; 0; 0; 0; 0].
  change (seq 0 _) with [0; 1; 2]%nat.
  cbn [accumulate]. rewrite Ha. cbn [finalize].
  do 3 (unfold finalize_vertex at 1; cbv zeta; unfold vertex3;
        cbn [lookup list_lookup Nat.mul Nat.add tangents bitangents];
        rewrite Ht, Hb; unfold set_vertex3;
        cbn [insert list_insert Nat.mul Nat.add vx vy vz]).
  reflexivity.
Qed.

(** C1: for a triangle whose UV determinant is not zero, the tangent
    [T] and bitangent [B] that the triangle adds to its three vertices
    solve the UV-gradient system: [dU1 * T + dV1 * B] is the edge
    [v1 - v0] and [dU2 * T + dV2 * B] is the edge [v2 - v0]. *)
Theorem tangent_bitangent_solve_uv_system (positions uvs : list R)
    (i0 i1 i2 : nat) (p0 p1 p2 : vec3) (t0 t1 t2 : R * R) :
  vertex3 positions i0 = Some p0 -> vertex3 positions i1 = Some p1 ->
  vertex3 positions i2 = Some p2 ->
  vertex2 uvs i0 = Some t0 -> vertex2 uvs i1 = Some t1 ->
  vertex2 uvs i2 = Some t2 ->
  let du1 := fst t1 - fst t0 in let dv1 := snd t1 - snd t0 in
  let du2 := fst t2 - fst t0 in let dv2 := snd t2 - snd t0 in
  du1 * dv2 - du2 * dv1 <> 0 ->
  exists T B,
    (forall acc,
       accumulate_triangle positions uvs acc i0 i1 i2 =
         Some {| tangents :=
                   add_vertex3 (add_vertex3 (add_vertex3 (tangents acc)
                     i0 T) i1 T) i2 T;
                 bitangents :=
                   add_vertex3 (add_vertex3 (add_vertex3 (bitangents acc)
                     i0 B) i1 B) i2 B |}) /\
    add3 (scale3 du1 T) (scale3 dv1 B) = sub3 p1 p0 /\
    add3 (scale3 du2 T) (scale3 dv2 B) = sub3 p2 p0.
Proof.
  intros H0 H1 H2 Hu0 Hu1 Hu2 du1 dv1 du2 dv2 Hden.
  pose proof (triangle_deltas_reads _ _ _ _ _ _ _ _ _ _ _ H0 H1 H2 Hu0 Hu1 Hu2) as Hd.
  fold du1 dv1 du2 dv2 in Hd.
  set (d := Deltas (sub3 p1 p0) (sub3 p2 p0) du1 dv1 du2 dv2) in *.
  assert (Hdd : denom d <> 0) by exact Hden.
  destruct (tangent_bitangent_Some d Hdd) as (T & B & HTB).
  exists T, B. split.
  - intros acc. unfold accumulate_triangle. rewrite Hd.
    destruct (Req_dec_T (denom d) 0.0) as [E|E].
    + rewrite lit_0_0 in E. contradiction.
    + rewrite HTB. reflexivity.
  - unfold tangent_bitangent in HTB. rewrite fdiv_Some in HTB by exact Hdd.
    injection HTB as <- <-. unfold denom, d; cbn [E1 E2 dU1 dV1 dU2 dV2].
    destruct p0 as [x0 y0 z0], p1 as [x1 y1 z1], p2 as [x2 y2 z2].
    unfold add3, scale3, sub3; cbn [vx vy vz]. rewrite lit_1_0.
    split; apply vec3_eq; field; exact Hden.
Qed.

Lemma tangent_bitangent_solve_uv_system_witness :
  exists T B,
    (forall acc,
       accumulate_triangle [0; 0; 0; 1; 0; 0; 0; 1; 0] [0; 0; 2; 0; 0; 1]
                           acc 0 1 2 =
         Some {| tangents :=
                   add_vertex3 (add_vertex3 (add_vertex3 (tangents acc)
                     0 T) 1 T) 2 T;
                 bitangents :=
                   add_vertex3 (add_vertex3 (add_vertex3 (bitangents acc)
                     0 B) 1 B) 2 B |}) /\
    add3 (scale3 (2 - 0) T) (scale3 (0 - 0) B) = sub3 (Vec3 1 0 0) (Vec3 0 0 0) /\
    add3 (scale3 (0 - 0) T) (scale3 (1 - 0) B) = sub3 (Vec3 0 1 0) (Vec3 0 0 0).
Proof.
  apply (tangent_bitangent_solve_uv_system
           [0; 0; 0; 1; 0; 0; 0; 1; 0] [0; 0; 2; 0; 0; 1] 0 1 2
           (Vec3 0 0 0) (Vec3 1 0 0) (Vec3 0 1 0) (0, 0) (2, 0) (0, 1));
    try reflexivity.
  cbn. lra.
Defined.

(** C3: a triangle whose UV determinant is zero is skipped.  Its turn
    of the loop returns the accumulators it was given, without dividing,
    and the loop goes on with the rest of the indices. *)
Theorem degenerate_triangle_skipped (positions uvs : list R)
    (i0 i1 i2 : nat) (p0 p1 p2 : vec3) (t0 t1 t2 : R * R) :
  vertex3 positions i0 = Some p0 -> vertex3 positions i1 = Some p1 ->
  vertex3 positions i2 = Some p2 ->
  vertex2 uvs i0 = Some t0 -> vertex2 uvs i1 = Some t1 ->
  vertex2 uvs i2 = Some t2 ->
  let du1 := fst t1 - fst t0 in let dv1 := snd t1 - snd t0 in
  let du2 := fst t2 - fst t0 in let dv2 := snd t2 - snd t0 in
  du1 * dv2 - du2 * dv1 = 0 ->
  forall acc,
    accumulate_triangle positions uvs acc i0 i1 i2 = Some acc /\
    forall rest,
      accumulate positions uvs (i0 :: i1 :: i2 :: rest) acc =
      accumulate positions uvs rest acc.
Proof.
  intros H0 H1 H2 Hu0 Hu1 Hu2 du1 dv1 du2 dv2 Hden acc.
  pose proof (triangle_deltas_reads _ _ _ _ _ _ _ _ _ _ _ H0 H1 H2 Hu0 Hu1 Hu2) as Hd.
  assert (Hs : accumulate_triangle positions uvs acc i0 i1 i2 = Some acc).
  { eapply accumulate_triangle_skip; [exact Hd|]. exact Hden. }
  split; [exact Hs|]. intros rest. cbn [accumulate]. rewrite Hs. reflexivity.
Qed.

Lemma degenerate_triangle_skipped_witness :
  accumulate_triangle [0; 0; 0; 1; 0; 0; 0; 1; 0] [3; 4; 3; 4; 3; 4]
                      (Buffers (replicate 9 0) (replicate 9 0)) 0 1 2
    = Some (Buffers (replicate 9 0) (replicate 9 0)) /\
  accumulate [0; 0; 0; 1; 0; 0; 0; 1; 0] [3; 4; 3; 4; 3; 4]
             [0; 1; 2]%nat (Buffers (replicate 9 0) (replicate 9 0))
    = Some (Buffers (replicate 9 0) (replicate 9 0)).
Proof.
  destruct (degenerate_triangle_skipped
              [0; 0; 0; 1; 0; 0; 0; 1; 0] [3; 4; 3; 4; 3; 4] 0 1 2
              (Vec3 0 0 0) (Vec3 1 0 0) (Vec3 0 1 0) (3, 4) (3, 4) (3, 4)
              eq_refl eq_refl eq_refl eq_refl eq_refl eq_refl
              ltac:(cbn; lra)
              (Buffers (replicate 9 0) (replicate 9 0))) as [Hs Hrest].
  split; [exact Hs|]. rewrite (Hrest []). reflexivity.
Defined.

(** C2: on a well-formed mesh [computeTangents] returns its arrays,
    and at every vertex whose normal has length one, a tangent that is
    not the zero vector is orthogonal to the normal and has length one;
    the same holds, independently, for the bitangent. *)
Theorem tangents_orthonormal_to_normal (positions normals uvs : list R)
    (indices : list nat) (vertexCount : nat) :
  well_formed positions normals uvs indices vertexCount ->
  exists out,
    computeTangents positions normals uvs indices = Some out /\
    forall i n,
      vertex3 normals i = Some n -> norm n = 1 ->
      (exists t,
         vertex3 (tangents out) i = Some t /\
         (t <> Vec3 0 0 0 -> dot t n = 0 /\ norm t = 1)) /\
      (exists b,
         vertex3 (bitangents out) i = Some b /\
         (b <> Vec3 0 0 0 -> dot b n = 0 /\ norm b = 1)).
Proof.
  intros Hwf.
  destruct (computeTangents_spec _ _ _ _ _ Hwf) as (acc & out & _ & Hout & _ & _ & F).
  exists out. split; [exact Hout|].
  intros i n Hn Hunit.
  assert (Hi : (i < vertexCount)%nat).
  { apply vertex3_lt in Hn. destruct Hwf as (_ & Hl & _). lia. }
  destruct (F i Hi) as (n' & t & b & t' & b' & Hn' & _ & _ & Ht' & Hb' & Ot & Ob).
  assert (n' = n) by congruence. subst n'.
  split.
  - exists t'. split; [exact Ot|]. intros Hnz.
    eapply orthonormalize_frame; eassumption.
  - exists b'. split; [exact Ob|]. intros Hnz.
    eapply orthonormalize_frame; eassumption.
Qed.

Lemma tangents_orthonormal_to_normal_witness :
  exists out,
    computeTangents [0; 0; 0; 1; 0; 0; 0; 1; 0] [0; 0; 1; 0; 0; 1; 0; 0; 1]
                    [0; 0; 2; 0; 0; 1] [0; 1; 2]%nat = Some out /\
    forall i n,
      vertex3 [0; 0; 1; 0; 0; 1; 0; 0; 1] i = Some n -> norm n = 1 ->
      (exists t,
         vertex3 (tangents out) i = Some t /\
         (t <> Vec3 0 0 0 -> dot t n = 0 /\ norm t = 1)) /\
      (exists b,
         vertex3 (bitangents out) i = Some b /\
         (b <> Vec3 0 0 0 -> dot b n = 0 /\ norm b = 1)).
Proof.
  apply (tangents_orthonormal_to_normal
           [0; 0; 0; 1; 0; 0; 0; 1; 0] [0; 0; 1; 0; 0; 1; 0; 0; 1]
           [0; 0; 2; 0; 0; 1] [0; 1; 2]%nat 3%nat).
  unfold well_formed. cbn.
  repeat split; try reflexivity; [exists 1%nat; reflexivity|].
  repeat constructor; lia.
Defined.

(** C4: on a well-formed mesh, a vertex whose accumulated tangent has
    length zero once its projection onto the normal is subtracted keeps
    the zero vector as its tangent, and likewise for the bitangent;
    [computeTangents] returns its arrays all the same.  When the mesh is
    a single triangle whose three texture coordinates are the same,
    every vertex has the zero vector for tangent and for bitangent. *)
Theorem zero_length_stays_zero (positions normals uvs : list R)
    (indices : list nat) (vertexCount : nat) :
  well_formed positions normals uvs indices vertexCount ->
  exists acc out,
    accumulate positions uvs indices
      {| tangents := replicate (vertexCount * 3) 0;
         bitangents := replicate (vertexCount * 3) 0 |} = Some acc /\
    computeTangents positions normals uvs indices = Some out /\
    (forall i n t,
       vertex3 normals i = Some n -> vertex3 (tangents acc) i = Some t ->
       norm (reject n t) = 0 ->
       vertex3 (tangents out) i = Some (Vec3 0 0 0)) /\
    (forall i n b,
       vertex3 normals i = Some n -> vertex3 (bitangents acc) i = Some b ->
       norm (reject n b) = 0 ->
       vertex3 (bitangents out) i = Some (Vec3 0 0 0)) /\
    (forall i0 i1 i2,
       indices = [i0; i1; i2] ->
       vertex2 uvs i0 = vertex2 uvs i1 -> vertex2 uvs i1 = vertex2 uvs i2 ->
       forall i, (i < vertexCount)%nat ->
         vertex3 (tangents out) i = Some (Vec3 0 0 0) /\
         vertex3 (bitangents out) i = Some (Vec3 0 0 0)).
Proof.
  intros Hwf.
  destruct (computeTangents_spec _ _ _ _ _ Hwf)
    as (acc & out & Hacc & Hout & _ & _ & F).
  exists acc, out. split; [exact Hacc|]. split; [exact Hout|].
  assert (Hlt : forall i n, vertex3 normals i = Some n -> (i < vertexCount)%nat).
  { intros i n Hn. apply vertex3_lt in Hn. destruct Hwf as (_ & Hl & _). lia. }
  split; [|split].
  - intros i n t Hn Ht Hz.
    destruct (F i (Hlt i n Hn)) as (n' & t0 & b0 & t' & b' & Hn' & Ht0 & _ & Ht' & _ & Ot & _).
    assert (n' = n) by congruence. assert (t0 = t) by congruence. subst n' t0.
    rewrite (orthonormalize_zero_length n t Hz) in Ht'. congruence.
  - intros i n b Hn Hb Hz.
    destruct (F i (Hlt i n Hn)) as (n' & t0 & b0 & t' & b' & Hn' & _ & Hb0 & _ & Hb' & _ & Ob).
    assert (n' = n) by congruence. assert (b0 = b) by congruence. subst n' b0.
    rewrite (orthonormalize_zero_length n b Hz) in Hb'. congruence.
  - intros i0 i1 i2 -> Hu01 Hu12 i Hi.
    destruct Hwf as (Hp & Hn & Hu & _ & Hidx).
    apply Forall_cons in Hidx as [H0 Hidx].
    apply Forall_cons in Hidx as [H1 Hidx]. apply Forall_cons in Hidx as [H2 _].
    destruct (triangle_deltas_Some positions uvs i0 i1 i2 vertexCount)
      as [d Hd]; try assumption.
    assert (Hden : denom d = 0).
    { unfold triangle_deltas in Hd.
      destruct (vertex3 positions i0); [|discriminate].
      destruct (vertex3 positions i1); [|discriminate].
      destruct (vertex3 positions i2); [|discriminate].
      rewrite <- Hu12, <- Hu01 in Hd.
      destruct (vertex2 uvs i0) as [t0|]; [|discriminate].
      injection Hd as <-. unfold denom; cbn. ring. }
    cbn [accumulate] in Hacc.
    rewrite (accumulate_triangle_skip _ _ _ _ _ _ d Hd Hden) in Hacc.
    injection Hacc as <-.
    destruct (F i Hi) as (n & t & b & t' & b' & _ & Ht & Hb & Ht' & Hb' & Ot & Ob).
    cbn [tangents bitangents] in Ht, Hb.
    rewrite vertex3_replicate in Ht, Hb by exact Hi.
    injection Ht as <-. injection Hb as <-.
    rewrite orthonormalize_zero in Ht', Hb'. split; congruence.
Qed.

Lemma zero_length_stays_zero_witness :
  exists acc out,
    accumulate [0; 0; 0; 1; 0; 0; 0; 1; 0] [3; 4; 3; 4; 3; 4] [0; 1; 2]%nat
      {| tangents := replicate (3 * 3) 0;
         bitangents := replicate (3 * 3) 0 |} = Some acc /\
    computeTangents [0; 0; 0; 1; 0; 0; 0; 1; 0] [0; 0; 1; 0; 0; 1; 0; 0; 1]
                    [3; 4; 3; 4; 3; 4] [0; 1; 2]%nat = Some out /\
    forall i, (i < 3)%nat ->
      vertex3 (tangents out) i = Some (Vec3 0 0 0) /\
      vertex3 (bitangents out) i = Some (Vec3 0 0 0).
Proof.
  destruct (zero_length_stays_zero
              [0; 0; 0; 1; 0; 0; 0; 1; 0] [0; 0; 1; 0; 0; 1; 0; 0; 1]
              [3; 4; 3; 4; 3; 4] [0; 1; 2]%nat 3%nat)
    as (acc & out & Hacc & Hout & _ & _ & Hz).
  - unfold well_formed. cbn.
    repeat split; try reflexivity; [exists 1%nat; reflexivity|].
    repeat constructor; lia.
  - exists acc, out. split; [exact Hacc|]. split; [exact Hout|].
    apply (Hz 0%nat 1%nat 2%nat); reflexivity.
Defined.

(** * Further properties *)

(** ** Screen/object space mapper *)

Lemma invert_right_inverse (m mi : mat4) (p : vec4) :
  invert m = Some mi -> transformMat4 (transformMat4 p mi) m = p.
Proof.
  unfold invert, fdiv.
  destruct (Req_dec_T _ 0) as [E|E]; [discriminate|].
  intros [= <-]. destruct p as [x y z w]. unfold transformMat4; cbn in *.
  f_equal; field; exact E.
Qed.

Lemma fdiv_inv (a b c : R) : fdiv a b = Some c -> b <> 0 /\ c = a / b.
Proof.
  unfold fdiv. destruct (Req_dec_T b 0) as [E|E]; [discriminate|].
  intros [= <-]. split; [exact E|reflexivity].
Qed.

Lemma map_div_inv (v r : vec4) (d : R) :
  map_div v d = Some r ->
  d <> 0 /\ r = Vec4 (e0 v / d) (e1 v / d) (e2 v / d) (e3 v / d).
Proof.
  unfold map_div, fdiv. destruct (Req_dec_T d 0) as [E|E]; [discriminate|].
  intros [= <-]. split; [exact E|reflexivity].
Qed.

(** X1: the round trip in the other direction.  Whenever [unproject]
    returns an object-space point for a window point of the form
    [[x, y, z, 1]], [project] maps that point back to the window
    point. *)
Theorem project_unproject (q p : vec4) (MVP : mat4) (viewport : vec4) :
  e3 q = 1 ->
  unproject q MVP viewport = Some p ->
  project p MVP viewport = Some q.
Proof.
  intros Hq1 Hu. unfold unproject in Hu.
  destruct (invert MVP) as [mi|] eqn:Hmi; [|discriminate].
  destruct (fdiv _ (e2 viewport)) as [t0|] eqn:H0; [|discriminate].
  destruct (fdiv _ (e3 viewport)) as [t1|] eqn:H1; [|discriminate].
  apply fdiv_inv in H0 as [Hw ->]. apply fdiv_inv in H1 as [Hh ->].
  cbv zeta in Hu.
  set (n := Vec4 _ _ (e2 q) (e3 q)) in Hu.
  apply map_div_inv in Hu as [Hd ->].
  set (d := e3 (transformMat4 n mi)) in *.
  pose proof (transformMat4_div (transformMat4 n mi) MVP d Hd) as Hlin.
  rewrite (invert_right_inverse MVP mi n Hmi) in Hlin. cbv zeta in Hlin.
  fold d in Hlin. unfold project. rewrite Hlin. cbn [e0 e1 e2 e3].
  assert (Hnw : e3 n / d <> 0).
  { unfold n; cbn [e3]. rewrite Hq1. unfold Rdiv. rewrite Rmult_1_l.
    apply Rinv_neq_0_compat. exact Hd. }
  rewrite map_div_Some by exact Hnw. cbn [e0 e1 e2 e3].
  f_equal. destruct q as [qx qy qz qw]. cbn [e3] in Hq1. subst qw.
  unfold n in *; cbn [e0 e1 e2 e3] in *. literals.
  apply vec4_eq; field; repeat split; assumption.
Qed.

Lemma project_unproject_witness :
  project (Vec4 0 0 0.5 1) identity (Vec4 0 0 800 600) =
    Some (Vec4 400 300 0.5 1).
Proof.
  apply (project_unproject (Vec4 400 300 0.5 1) (Vec4 0 0 0.5 1)
           identity (Vec4 0 0 800 600)).
  - reflexivity.
  - apply unproject_centre.
Defined.

(** X2: [project] sees a homogeneous point: scaling all four
    coordinates of [p_obj] by the same non-zero factor changes
    nothing, whether [project] returns a window point or fails. *)
Theorem project_homogeneous (k : R) (p : vec4) (MVP : mat4) (viewport : vec4) :
  k <> 0 ->
  project (Vec4 (k * e0 p) (k * e1 p) (k * e2 p) (k * e3 p)) MVP viewport =
  project p MVP viewport.
Proof.
  intros Hk. unfold project. cbv zeta.
  assert (Hlin :
    transformMat4 (Vec4 (k * e0 p) (k * e1 p) (k * e2 p) (k * e3 p)) MVP =
    Vec4 (k * e0 (transformMat4 p MVP)) (k * e1 (transformMat4 p MVP))
         (k * e2 (transformMat4 p MVP)) (k * e3 (transformMat4 p MVP))).
  { unfold transformMat4; cbn [e0 e1 e2 e3]. apply vec4_eq; ring. }
  rewrite Hlin. cbn [e0 e1 e2 e3].
  set (c := transformMat4 p MVP).
  destruct (Req_dec_T (e3 c) 0) as [E|E].
  - rewrite E, Rmult_0_r, !map_div_zero. reflexivity.
  - assert (Hkc : k * e3 c <> 0) by (apply Rmult_integral_contrapositive; auto).
    rewrite !map_div_Some by assumption. cbn [e0 e1 e2 e3].
    f_equal. literals. apply vec4_eq; field; auto.
Qed.

Lemma project_homogeneous_witness :
  project (Vec4 (2 * 1) (2 * 2) (2 * 3) (2 * 1)) identity (Vec4 0 0 800 600) =
  project (Vec4 1 2 3 1) identity (Vec4 0 0 800 600).
Proof.
  apply (project_homogeneous 2 (Vec4 1 2 3 1) identity (Vec4 0 0 800 600)).
  lra.
Defined.

(** X3: [unproject_vector] in closed form.  On a viewport of non-zero
    size it moves the origin's point in normalized device coordinates
    by [(2 dx / width, 2 dy / height, dz)] and maps the result back; so
    it does not depend on where the viewport starts, only on its
    size. *)
Theorem unproject_vector_closed_form (vec_win : vec3) (MVP : mat4)
    (viewport n : vec4) :
  e2 viewport <> 0 -> e3 viewport <> 0 ->
  ndc (Vec4 0 0 0 1) MVP = Some n ->
  unproject_vector vec_win MVP viewport =
    from_ndc (Vec4 (e0 n + 2 * vx vec_win / e2 viewport)
                   (e1 n + 2 * vy vec_win / e3 viewport)
                   (e2 n + vz vec_win)
                   1) MVP
  /\ forall x y,
       unproject_vector vec_win MVP (Vec4 x y (e2 viewport) (e3 viewport)) =
       unproject_vector vec_win MVP viewport.
Proof.
  intros Hw Hh Hn.
  assert (Hcf : forall vp, e2 vp <> 0 -> e3 vp <> 0 ->
    unproject_vector vec_win MVP vp =
      from_ndc (Vec4 (e0 n + 2 * vx vec_win / e2 vp)
                     (e1 n + 2 * vy vec_win / e3 vp)
                     (e2 n + vz vec_win) 1) MVP).
  { intros vp Hvw Hvh. unfold unproject_vector, project.
    unfold ndc in Hn. cbv zeta in *. rewrite Hn. cbn [e0 e1 e2 e3].
    rewrite unproject_as_from_ndc. cbn [e0 e1 e2 e3].
    rewrite !fdiv_Some by assumption. f_equal. literals.
    apply vec4_eq; try reflexivity; field; assumption. }
  split; [apply Hcf; assumption|].
  intros x y. rewrite (Hcf viewport Hw Hh).
  rewrite (Hcf (Vec4 x y (e2 viewport) (e3 viewport))) by (cbn; assumption).
  reflexivity.
Qed.

Lemma unproject_vector_closed_form_witness :
  unproject_vector (Vec3 4 3 0) identity (Vec4 10 20 800 600) =
    from_ndc (Vec4 (0 + 2 * 4 / 800) (0 + 2 * 3 / 600) (0 + 0) 1) identity
  /\ forall x y,
       unproject_vector (Vec3 4 3 0) identity (Vec4 x y 800 600) =
       unproject_vector (Vec3 4 3 0) identity (Vec4 10 20 800 600).
Proof.
  apply (unproject_vector_closed_form (Vec3 4 3 0) identity
           (Vec4 10 20 800 600) (Vec4 0 0 0 1)).
  - cbn. lra.
  - cbn. lra.
  - unfold ndc. rewrite transformMat4_identity. cbn [e3].
    rewrite map_div_Some by lra. cbn [e0 e1 e2 e3].
    f_equal. apply vec4_eq; field.
Defined.

(** ** Articulated transform composer *)

(** The world point in closed form: the local end point is turned about
    the joint axis (parallel to Z, through [-joinPivot]), then about the
    turret axis (parallel to Y, through [-turretPivot]), then placed by
    the body transform. *)
Lemma computeBarrelPivot_closed (px py pz rot turret elevation : R)
    (tp bp jp : vec3) :
  computeBarrelPivot (MkTankState (Vec3 px py pz) rot turret elevation)
                     tp bp jp =
    let ax := vx bp + vx jp in
    let ay := vy bp - 0.46 + vy jp in
    let qx := cos elevation * ax - sin elevation * ay - vx jp in
    let qy := sin elevation * ax + cos elevation * ay - vy jp in
    let qz := vz bp in
    let rx := cos turret * (qx + vx tp) + sin turret * (qz + vz tp) - vx tp in
    let rz := - sin turret * (qx + vx tp) + cos turret * (qz + vz tp) - vz tp in
    Some (Vec3 (px + cos rot * rx + sin rot * rz)
               (0.46 + qy)
               (pz - sin rot * rx + cos rot * rz)).
Proof.
  destruct tp as [tx ty tz], bp as [bx by' bz], jp as [jx jy jz].
  composer. literals. f_equal. apply vec3_eq; ring.
Qed.



(** X4: the tank's position only translates the result.  Moving
    [position] by [(dx, dy, dz)] moves the world point by [(dx, 0, dz)],
    whatever the rotations and the pivots. *)
Theorem computeBarrelPivot_translation (px py pz dx dy dz rot turret elevation : R)
    (turretPivot barrelPivot joinPivot : vec3) :
  computeBarrelPivot
    (MkTankState (Vec3 (px + dx) (py + dy) (pz + dz)) rot turret elevation)
    turretPivot barrelPivot joinPivot =
  option_map (add3 (Vec3 dx 0 dz))
    (computeBarrelPivot (MkTankState (Vec3 px py pz) rot turret elevation)
                        turretPivot barrelPivot joinPivot).
Proof.
  rewrite !computeBarrelPivot_closed. cbv zeta. cbn [option_map].
  f_equal. unfold add3; cbn [vx vy vz]. apply vec3_eq; ring.
Qed.

(** X5: the yaw rotations never change the height.  The Y of the world
    point is [0.46] plus the Y of the local end point turned about the
    joint axis; it does not depend on [position], [rotation],
    [turretRotation] or [turretPivot]. *)
Theorem computeBarrelPivot_height (px py pz rot turret elevation : R)
    (turretPivot barrelPivot joinPivot : vec3) :
  exists worldEnd,
    computeBarrelPivot (MkTankState (Vec3 px py pz) rot turret elevation)
                       turretPivot barrelPivot joinPivot = Some worldEnd /\
    vy worldEnd =
      0.46 + (sin elevation * (vx barrelPivot + vx joinPivot)
              + cos elevation * (vy barrelPivot - 0.46 + vy joinPivot)
              - vy joinPivot).
Proof.
  rewrite computeBarrelPivot_closed. cbv zeta.
  eexists. split; [reflexivity|]. reflexivity.
Qed.


(** X7: body yaw and turret yaw add up when the turret axis is the
    body's own: with the X and Z of [turretPivot] zero, the world point
    for [rotation = a] and [turretRotation = b] is the one for
    [rotation = a + b] and [turretRotation = 0]. *)
Theorem computeBarrelPivot_yaw_adds (px py pz a b elevation : R)
    (turretPivot barrelPivot joinPivot : vec3) :
  vx turretPivot = 0 -> vz turretPivot = 0 ->
  computeBarrelPivot (MkTankState (Vec3 px py pz) a b elevation)
                     turretPivot barrelPivot joinPivot =
  computeBarrelPivot (MkTankState (Vec3 px py pz) (a + b) 0 elevation)
                     turretPivot barrelPivot joinPivot.
Proof.
  intros Hx Hz. rewrite !computeBarrelPivot_closed. cbv zeta.
  rewrite Hx, Hz, cos_plus, sin_plus, cos_0, sin_0.
  f_equal. apply vec3_eq; ring.
Qed.

Lemma computeBarrelPivot_yaw_adds_witness :
  computeBarrelPivot (MkTankState (Vec3 1 0 2) (PI / 2) PI 0)
                     (Vec3 0 3 0) (Vec3 1 1 1) (Vec3 0 0 0) =
  computeBarrelPivot (MkTankState (Vec3 1 0 2) (PI / 2 + PI) 0 0)
                     (Vec3 0 3 0) (Vec3 1 1 1) (Vec3 0 0 0).
Proof.
  apply (computeBarrelPivot_yaw_adds 1 0 2 (PI / 2) PI 0
           (Vec3 0 3 0) (Vec3 1 1 1) (Vec3 0 0 0)); reflexivity.
Defined.

(** X8: points on a rotation axis stay put.  A local end point on the
    joint axis (its X and Y those of [-joinPivot]) gives the same world
    point for every [barrelElevation]; and with the barrel level, a
    local end point on the turret axis (its X and Z those of
    [-turretPivot]) gives the same world point for every
    [turretRotation]. *)
Theorem computeBarrelPivot_axis_points (px py pz rot : R)
    (turretPivot barrelPivot joinPivot : vec3) :
  (vx barrelPivot = - vx joinPivot ->
   vy barrelPivot - 0.46 = - vy joinPivot ->
   forall turret e e',
     computeBarrelPivot (MkTankState (Vec3 px py pz) rot turret e)
                        turretPivot barrelPivot joinPivot =
     computeBarrelPivot (MkTankState (Vec3 px py pz) rot turret e')
                        turretPivot barrelPivot joinPivot) /\
  (vx barrelPivot = - vx turretPivot ->
   vz barrelPivot = - vz turretPivot ->
   forall t t',
     computeBarrelPivot (MkTankState (Vec3 px py pz) rot t 0)
                        turretPivot barrelPivot joinPivot =
     computeBarrelPivot (MkTankState (Vec3 px py pz) rot t' 0)
                        turretPivot barrelPivot joinPivot).
Proof.
  destruct turretPivot as [tx ty tz], barrelPivot as [bx by' bz],
    joinPivot as [jx jy jz]. cbn [vx vy vz]. split.
  - intros Hx Hy turret e e'. rewrite !computeBarrelPivot_closed. cbv zeta.
    cbn [vx vy vz]. subst bx.
    replace (by' - 0.46 + jy) with 0 by lra.
    f_equal. apply vec3_eq; ring.
  - intros Hx Hz t t'. rewrite !computeBarrelPivot_closed. cbv zeta.
    cbn [vx vy vz]. rewrite cos_0, sin_0. subst bx bz.
    f_equal. apply vec3_eq; ring.
Qed.

Lemma computeBarrelPivot_axis_points_witness :
  (forall turret e e',
     computeBarrelPivot (MkTankState (Vec3 1 0 2) 1 turret e)
                        (Vec3 4 0 5) (Vec3 (- 2) (0.46 + - 3) 7) (Vec3 2 3 0) =
     computeBarrelPivot (MkTankState (Vec3 1 0 2) 1 turret e')
                        (Vec3 4 0 5) (Vec3 (- 2) (0.46 + - 3) 7) (Vec3 2 3 0)) /\
  (forall t t',
     computeBarrelPivot (MkTankState (Vec3 1 0 2) 1 t 0)
                        (Vec3 4 0 5) (Vec3 (- 4) 1 (- 5)) (Vec3 2 3 0) =
     computeBarrelPivot (MkTankState (Vec3 1 0 2) 1 t' 0)
                        (Vec3 4 0 5) (Vec3 (- 4) 1 (- 5)) (Vec3 2 3 0)).
Proof.
  split.
  - apply (proj1 (computeBarrelPivot_axis_points 1 0 2 1
                    (Vec3 4 0 5) (Vec3 (- 2) (0.46 + - 3) 7) (Vec3 2 3 0))).
    + reflexivity.
    + cbn. lra.
  - apply (proj2 (computeBarrelPivot_axis_points 1 0 2 1
                    (Vec3 4 0 5) (Vec3 (- 4) 1 (- 5)) (Vec3 2 3 0)));
      reflexivity.
Defined.

(** ** Tangent-space generator *)

(** Induction over an index list three indices at a time, as the loop
    over the triangles reads it. *)
Lemma triples_ind (P : list nat -> Prop) :
  P [] -> (forall a, P [a]) -> (forall a b, P [a; b]) ->
  (forall a b c l, P l -> P (a :: b :: c :: l)) ->
  forall l, P l.
Proof.
  intros H0 H1 H2 H3.
  assert (H : forall l, P l /\ (forall a, P (a :: l)) /\ (forall a b, P (a :: b :: l))).
  { induction l as [|c l (IH0 & IH1 & IH2)].
    - repeat split; auto.
    - repeat split; auto. }
  intros l. apply H.
Qed.

Lemma accumulate_length (positions uvs : list R) (indices : list nat) :
  forall acc acc',
    accumulate positions uvs indices acc = Some acc' ->
    length (tangents acc') = length (tangents acc) /\
    length (bitangents acc') = length (bitangents acc).
Proof.
  induction indices as [| | |i0 i1 i2 rest IH] using triples_ind;
    intros acc acc' H; cbn [accumulate] in H; try discriminate.
  - injection H as <-. split; reflexivity.
  - destruct (accumulate_triangle positions uvs acc i0 i1 i2) as [acc1|] eqn:E;
      [|discriminate].
    apply accumulate_triangle_length in E. apply IH in H.
    destruct E, H. split; congruence.
Qed.

(** What a returned result says about the two loops. *)
Lemma computeTangents_inv (positions normals uvs : list R)
    (indices : list nat) (out : buffers) :
  computeTangents positions normals uvs indices = Some out ->
  let vertexCount := (length positions / 3)%nat in
  exists acc,
    accumulate positions uvs indices
      {| tangents := replicate (vertexCount * 3) 0;
         bitangents := replicate (vertexCount * 3) 0 |} = Some acc /\
    length (tangents out) = (vertexCount * 3)%nat /\
    length (bitangents out) = (vertexCount * 3)%nat /\
    (forall i, (i < vertexCount)%nat -> finalized_at normals acc out i).
Proof.
  unfold computeTangents. cbv zeta. intros H.
  destruct (accumulate positions uvs indices _) as [acc|] eqn:Ha; [|discriminate].
  exists acc. split; [reflexivity|].
  apply accumulate_length in Ha. cbn [tangents bitangents] in Ha.
  rewrite length_replicate in Ha. destruct Ha as [Lt Lb].
  apply finalize_seq in H. destruct H as (Lt' & Lb' & F & _).
  split; [congruence|]. split; [congruence|].
  intros i Hi. apply F. lia.
Qed.

(** X9: the two output arrays are as long as [positions].  Whenever
    [computeTangents] returns on positions that come three to a
    vertex, [tangents] and [bitangents] have the length of [positions],
    whatever the indices, the normals and the texture coordinates
    are. *)
Theorem computeTangents_lengths (positions normals uvs : list R)
    (indices : list nat) (out : buffers) :
  (length positions mod 3 = 0)%nat ->
  computeTangents positions normals uvs indices = Some out ->
  length (tangents out) = length positions /\
  length (bitangents out) = length positions.
Proof.
  intros Hm H. apply computeTangents_inv in H. cbv zeta in H.
  destruct H as (acc & _ & Lt & Lb & _).
  rewrite Lt, Lb.
  pose proof (Nat.div_mod_eq (length positions) 3) as Hd. lia.
Qed.

Lemma computeTangents_lengths_witness :
  length [1; 0; 0; 1; 0; 0; 1; 0; 0] = length [0; 0; 0; 1; 0; 0; 0; 1; 0] /\
  length [0; 1; 0; 0; 1; 0; 0; 1; 0] = length [0; 0; 0; 1; 0; 0; 0; 1; 0].
Proof.
  apply (computeTangents_lengths
           [0; 0; 0; 1; 0; 0; 0; 1; 0] [0; 0; 1; 0; 0; 1; 0; 0; 1]
           [0; 0; 1; 0; 0; 1] [0; 1; 2]%nat
           {| tangents := [1; 0; 0; 1; 0; 0; 1; 0; 0];
              bitangents := [0; 1; 0; 0; 1; 0; 0; 1; 0] |}).
  - reflexivity.
  - apply computeTangents_unit_triangle.
Defined.

Lemma lookup_add_at (a : list R) (m k : nat) (x : R) :
  add_at a m x !! k =
    if decide (k = m) then (fun y => y + x) <$> (a !! k) else a !! k.
Proof.
  unfold add_at. destruct (decide (k = m)) as [->|Hne].
  - destruct (a !! m) as [y|] eqn:E.
    + rewrite list_lookup_insert_eq by (eapply lookup_lt_Some; exact E).
      reflexivity.
    + rewrite E. reflexivity.
  - destruct (a !! m); [|reflexivity].
    apply list_lookup_insert_ne. congruence.
Qed.

Lemma vertex3_add_ne (a : list R) (i j : nat) (v : vec3) :
  i <> j -> vertex3 (add_vertex3 a i v) j = vertex3 a j.
Proof.
  intros H. unfold vertex3, add_vertex3. rewrite !lookup_add_at.
  repeat (destruct (decide _) as [E|_]; [lia|]). reflexivity.
Qed.

Lemma accumulate_triangle_other (positions uvs : list R) (acc acc' : buffers)
    (i0 i1 i2 j : nat) :
  accumulate_triangle positions uvs acc i0 i1 i2 = Some acc' ->
  j <> i0 -> j <> i1 -> j <> i2 ->
  vertex3 (tangents acc') j = vertex3 (tangents acc) j /\
  vertex3 (bitangents acc') j = vertex3 (bitangents acc) j.
Proof.
  unfold accumulate_triangle. intros H H0 H1 H2.
  destruct (triangle_deltas positions uvs i0 i1 i2) as [d|]; [|discriminate].
  destruct (Req_dec_T (denom d) 0.0).
  - injection H as <-. split; reflexivity.
  - destruct (tangent_bitangent d) as [TB|]; [|discriminate].
    injection H as <-. cbn [tangents bitangents].
    rewrite !vertex3_add_ne by congruence. split; reflexivity.
Qed.

Lemma accumulate_other (positions uvs : list R) (indices : list nat) (j : nat) :
  j ∉ indices ->
  forall acc acc',
    accumulate positions uvs indices acc = Some acc' ->
    vertex3 (tangents acc') j = vertex3 (tangents acc) j /\
    vertex3 (bitangents acc') j = vertex3 (bitangents acc) j.
Proof.
  induction indices as [| | |i0 i1 i2 rest IH] using triples_ind;
    intros Hj acc acc' H; cbn [accumulate] in H; try discriminate.
  - injection H as <-. split; reflexivity.
  - destruct (accumulate_triangle positions uvs acc i0 i1 i2) as [acc1|] eqn:E;
      [|discriminate].
    rewrite !not_elem_of_cons in Hj. destruct Hj as (H0 & H1 & H2 & Hr).
    destruct (accumulate_triangle_other _ _ _ _ _ _ _ j E H0 H1 H2) as [Et Eb].
    destruct (IH Hr acc1 acc' H) as [Et' Eb']. split; congruence.
Qed.

(** X10: a vertex that no triangle uses gets the zero vector for
    tangent and for bitangent.  In particular, with an empty index list
    every vertex does. *)
Theorem unused_vertex_zero (positions normals uvs : list R)
    (indices : list nat) (out : buffers) (j : nat) :
  computeTangents positions normals uvs indices = Some out ->
  (j < length positions / 3)%nat -> ~ In j indices ->
  vertex3 (tangents out) j = Some (Vec3 0 0 0) /\
  vertex3 (bitangents out) j = Some (Vec3 0 0 0).
Proof.
  intros H Hj Hnot. rewrite <- list_elem_of_In in Hnot.
  apply computeTangents_inv in H. cbv zeta in H.
  destruct H as (acc & Ha & _ & _ & F).
  destruct (accumulate_other _ _ _ j Hnot _ _ Ha) as [Et Eb].
  cbn [tangents bitangents] in Et, Eb.
  rewrite vertex3_replicate in Et, Eb by exact Hj.
  destruct (F j Hj) as (n & t & b & t' & b' & _ & Ht & Hb & Ht' & Hb' & Ot & Ob).
  assert (t = Vec3 0 0 0) by congruence. assert (b = Vec3 0 0 0) by congruence.
  subst t b. rewrite orthonormalize_zero in Ht', Hb'. split; congruence.
Qed.

(** With no triangle at all [computeTangents] returns as soon as the
    normals cover the vertices. *)
Lemma computeTangents_no_triangles (positions normals uvs : list R) :
  (length positions / 3 * 3 <= length normals)%nat ->
  exists out, computeTangents positions normals uvs [] = Some out.
Proof.
  intros H. unfold computeTangents. cbv zeta. cbn [accumulate].
  apply finalize_Some; cbn [tangents bitangents];
    rewrite ?length_replicate; lia.
Qed.

Lemma unused_vertex_zero_witness :
  exists out,
    computeTangents [0; 0; 0; 1; 0; 0] [0; 0; 1; 0; 0; 1] [] [] = Some out /\
    vertex3 (tangents out) 1 = Some (Vec3 0 0 0) /\
    vertex3 (bitangents out) 1 = Some (Vec3 0 0 0).
Proof.
  destruct (computeTangents_no_triangles
              [0; 0; 0; 1; 0; 0] [0; 0; 1; 0; 0; 1] []) as [out Hout].
  { cbn. lia. }
  exists out. split; [exact Hout|].
  apply (unused_vertex_zero [0; 0; 0; 1; 0; 0] [0; 0; 1; 0; 0; 1] [] [] out 1 Hout).
  - cbn. lia.
  - intros [].
Defined.

Lemma add_vertex3_comm (a : list R) (i j : nat) (v : vec3) :
  add_vertex3 (add_vertex3 a i v) j v = add_vertex3 (add_vertex3 a j v) i v.
Proof.
  destruct (decide (i = j)) as [->|Hne]; [reflexivity|].
  apply list_eq. intros k. unfold add_vertex3. rewrite !lookup_add_at.
  repeat (case_decide; try lia); reflexivity.
Qed.

Lemma tangent_bitangent_eq (d d' : deltas) (k : R) :
  denom d <> 0 -> denom d' = k * denom d -> k <> 0 ->
  vx (E1 d') * dV2 d' - vx (E2 d') * dV1 d' = k * (vx (E1 d) * dV2 d - vx (E2 d) * dV1 d) ->
  vy (E1 d') * dV2 d' - vy (E2 d') * dV1 d' = k * (vy (E1 d) * dV2 d - vy (E2 d) * dV1 d) ->
  vz (E1 d') * dV2 d' - vz (E2 d') * dV1 d' = k * (vz (E1 d) * dV2 d - vz (E2 d) * dV1 d) ->
  vx (E2 d') * dU1 d' - vx (E1 d') * dU2 d' = k * (vx (E2 d) * dU1 d - vx (E1 d) * dU2 d) ->
  vy (E2 d') * dU1 d' - vy (E1 d') * dU2 d' = k * (vy (E2 d) * dU1 d - vy (E1 d) * dU2 d) ->
  vz (E2 d') * dU1 d' - vz (E1 d') * dU2 d' = k * (vz (E2 d) * dU1 d - vz (E1 d) * dU2 d) ->
  tangent_bitangent d' = tangent_bitangent d.
Proof.
  intros Hd Hk Hk0 Tx Ty Tz Bx By Bz. unfold tangent_bitangent.
  assert (Hd' : denom d' <> 0).
  { rewrite Hk. apply Rmult_integral_contrapositive; auto. }
  rewrite !fdiv_Some by assumption.
  rewrite Tx, Ty, Tz, Bx, By, Bz, Hk, lit_1_0.
  do 2 f_equal; apply vec3_eq; field; auto.
Qed.

(** The deltas of a triangle read with its first two indices swapped,
    and read one index further round. *)
Lemma triangle_deltas_permuted (positions uvs : list R) (i0 i1 i2 : nat)
    (d : deltas) (k : R) (j0 j1 j2 : nat) :
  (j0 = i1 /\ j1 = i0 /\ j2 = i2 /\ k = -1) \/
  (j0 = i1 /\ j1 = i2 /\ j2 = i0 /\ k = 1) ->
  triangle_deltas positions uvs i0 i1 i2 = Some d ->
  exists d',
    triangle_deltas positions uvs j0 j1 j2 = Some d' /\
    denom d' = k * denom d /\
    (denom d <> 0 -> tangent_bitangent d' = tangent_bitangent d).
Proof.
  intros Hperm H. unfold triangle_deltas in H.
  destruct (vertex3 positions i0) as [[x0 y0 z0]|] eqn:P0; [|discriminate].
  destruct (vertex3 positions i1) as [[x1 y1 z1]|] eqn:P1; [|discriminate].
  destruct (vertex3 positions i2) as [[x2 y2 z2]|] eqn:P2; [|discriminate].
  destruct (vertex2 uvs i0) as [[u0 v0]|] eqn:U0; [|discriminate].
  destruct (vertex2 uvs i1) as [[u1 v1]|] eqn:U1; [|discriminate].
  destruct (vertex2 uvs i2) as [[u2 v2]|] eqn:U2; [|discriminate].
  injection H as <-.
  destruct Hperm as [(-> & -> & -> & ->)|(-> & -> & -> & ->)];
    unfold triangle_deltas; rewrite P0, P1, P2, U0, U1, U2;
    eexists; (split; [reflexivity|]);
    (split; [unfold denom; cbn; ring|]);
    intros Hd.
  - apply (tangent_bitangent_eq _ _ (-1));
      [exact Hd | unfold denom; cbn; ring | lra | cbn; ring ..].
  - apply (tangent_bitangent_eq _ _ 1);
      [exact Hd | unfold denom; cbn; ring | lra | cbn; ring ..].
Qed.

Lemma triangle_deltas_None_permuted (positions uvs : list R) (i0 i1 i2 : nat) :
  triangle_deltas positions uvs i0 i1 i2 = None ->
  triangle_deltas positions uvs i1 i0 i2 = None /\
  triangle_deltas positions uvs i1 i2 i0 = None.
Proof.
  unfold triangle_deltas.
  destruct (vertex3 positions i0), (vertex3 positions i1), (vertex3 positions i2),
    (vertex2 uvs i0), (vertex2 uvs i1), (vertex2 uvs i2);
    intros H; try discriminate; split; reflexivity.
Qed.

Lemma accumulate_triangle_permuted (positions uvs : list R) (acc : buffers)
    (i0 i1 i2 : nat) :
  accumulate_triangle positions uvs acc i1 i0 i2 =
    accumulate_triangle positions uvs acc i0 i1 i2 /\
  accumulate_triangle positions uvs acc i1 i2 i0 =
    accumulate_triangle positions uvs acc i0 i1 i2.
Proof.
  destruct (triangle_deltas positions uvs i0 i1 i2) as [d|] eqn:Hd.
  - split.
    + destruct (triangle_deltas_permuted positions uvs i0 i1 i2 d (-1) i1 i0 i2)
        as (d' & Hd' & Hden & HTB); [left; auto|exact Hd|].
      unfold accumulate_triangle. rewrite Hd, Hd'.
      destruct (Req_dec_T (denom d) 0.0) as [E|E],
               (Req_dec_T (denom d') 0.0) as [E'|E'];
        rewrite lit_0_0 in E, E'; try reflexivity; try (exfalso; lra).
      rewrite (HTB E). destruct (tangent_bitangent d) as [TB|]; [|reflexivity].
      rewrite (add_vertex3_comm (tangents acc) i1 i0).
      rewrite (add_vertex3_comm (bitangents acc) i1 i0). reflexivity.
    + destruct (triangle_deltas_permuted positions uvs i0 i1 i2 d 1 i1 i2 i0)
        as (d' & Hd' & Hden & HTB); [right; auto|exact Hd|].
      unfold accumulate_triangle. rewrite Hd, Hd'.
      destruct (Req_dec_T (denom d) 0.0) as [E|E],
               (Req_dec_T (denom d') 0.0) as [E'|E'];
        rewrite lit_0_0 in E, E'; try reflexivity; try (exfalso; lra).
      rewrite (HTB E). destruct (tangent_bitangent d) as [TB|]; [|reflexivity].
      rewrite (add_vertex3_comm (add_vertex3 (tangents acc) i1 TB.1) i2 i0).
      rewrite (add_vertex3_comm (tangents acc) i1 i0).
      rewrite (add_vertex3_comm (add_vertex3 (bitangents acc) i1 TB.2) i2 i0).
      rewrite (add_vertex3_comm (bitangents acc) i1 i0). reflexivity.
  - destruct (triangle_deltas_None_permuted _ _ _ _ _ Hd) as [H1 H2].
    unfold accumulate_triangle. rewrite Hd, H1, H2. split; reflexivity.
Qed.

(** The loop over a list that starts with whole triangles. *)
Lemma accumulate_app (positions uvs : list R) (triangles : nat) :
  forall (front back : list nat) (acc : buffers),
    length front = (triangles * 3)%nat ->
    accumulate positions uvs (front ++ back) acc =
      acc' <- accumulate positions uvs front acc ;;
      accumulate positions uvs back acc'.
Proof.
  induction triangles as [|k IH]; intros front back acc Hl.
  - destruct front; [reflexivity|discriminate].
  - destruct front as [|i0 [|i1 [|i2 rest]]]; try discriminate.
    cbn [app accumulate].
    destruct (accumulate_triangle positions uvs acc i0 i1 i2); [|reflexivity].
    apply IH. cbn in Hl. lia.
Qed.

(** X11: the order in which a triangle lists its three vertices does
    not matter.  Swapping two of the indices of any triangle of the
    index list, or rotating the three, leaves the result of
    [computeTangents] as it is. *)
Theorem computeTangents_index_order (positions normals uvs : list R)
    (front back : list nat) (i0 i1 i2 triangles : nat) :
  length front = (triangles * 3)%nat ->
  computeTangents positions normals uvs (front ++ [i1; i0; i2] ++ back) =
    computeTangents positions normals uvs (front ++ [i0; i1; i2] ++ back) /\
  computeTangents positions normals uvs (front ++ [i1; i2; i0] ++ back) =
    computeTangents positions normals uvs (front ++ [i0; i1; i2] ++ back).
Proof.
  intros Hl. unfold computeTangents. cbv zeta.
  rewrite !(accumulate_app positions uvs triangles front) by exact Hl.
  destruct (accumulate positions uvs front _) as [acc|]; [|split; reflexivity].
  cbn [app accumulate].
  destruct (accumulate_triangle_permuted positions uvs acc i0 i1 i2) as [-> ->].
  split; reflexivity.
Qed.

Lemma computeTangents_index_order_witness :
  computeTangents [0; 0; 0; 1; 0; 0; 0; 1; 0] [0; 0; 1; 0; 0; 1; 0; 0; 1]
                  [0; 0; 1; 0; 0; 1] ([] ++ [1; 0; 2] ++ [])%nat =
    computeTangents [0; 0; 0; 1; 0; 0; 0; 1; 0] [0; 0; 1; 0; 0; 1; 0; 0; 1]
                    [0; 0; 1; 0; 0; 1] ([] ++ [0; 1; 2] ++ [])%nat /\
  computeTangents [0; 0; 0; 1; 0; 0; 0; 1; 0] [0; 0; 1; 0; 0; 1; 0; 0; 1]
                  [0; 0; 1; 0; 0; 1] ([] ++ [1; 2; 0] ++ [])%nat =
    computeTangents [0; 0; 0; 1; 0; 0; 0; 1; 0] [0; 0; 1; 0; 0; 1; 0; 0; 1]
                    [0; 0; 1; 0; 0; 1] ([] ++ [0; 1; 2] ++ [])%nat.
Proof.
  apply (computeTangents_index_order
           [0; 0; 0; 1; 0; 0; 0; 1; 0] [0; 0; 1; 0; 0; 1; 0; 0; 1]
           [0; 0; 1; 0; 0; 1] [] [] 0 1 2 0).
  reflexivity.
Defined.

Lemma accumulate_ext (positions positions' uvs uvs' : list R) :
  (forall i0 i1 i2,
     triangle_deltas positions' uvs' i0 i1 i2 =
     triangle_deltas positions uvs i0 i1 i2) ->
  forall indices acc,
    accumulate positions' uvs' indices acc = accumulate positions uvs indices acc.
Proof.
  intros Hd indices.
  induction indices as [| | |i0 i1 i2 rest IH] using triples_ind;
    intros acc; try reflexivity.
  cbn [accumulate]. unfold accumulate_triangle. rewrite Hd.
  destruct (triangle_deltas positions uvs i0 i1 i2) as [d|]; [|reflexivity].
  destruct (Req_dec_T (denom d) 0.0); [apply IH|].
  destruct (tangent_bitangent d); [apply IH|reflexivity].
Qed.

(** X12: only differences of positions and of texture coordinates
    count.  Moving every vertex by the same vector, and every texture
    coordinate by the same offset, leaves the result of
    [computeTangents] as it is. *)
Theorem computeTangents_translation (positions positions' normals uvs uvs' : list R)
    (indices : list nat) (v : vec3) (du dv : R) :
  length positions' = length positions ->
  (forall i, vertex3 positions' i = option_map (add3 v) (vertex3 positions i)) ->
  (forall i, vertex2 uvs' i =
             option_map (fun t => (fst t + du, snd t + dv)) (vertex2 uvs i)) ->
  computeTangents positions' normals uvs' indices =
  computeTangents positions normals uvs indices.
Proof.
  intros Hl Hp Hu. unfold computeTangents. cbv zeta. rewrite Hl.
  rewrite (accumulate_ext positions positions' uvs uvs'); [reflexivity|].
  intros i0 i1 i2. unfold triangle_deltas. rewrite !Hp, !Hu.
  destruct (vertex3 positions i0) as [[x0 y0 z0]|]; [|reflexivity].
  destruct (vertex3 positions i1) as [[x1 y1 z1]|]; [|reflexivity].
  destruct (vertex3 positions i2) as [[x2 y2 z2]|]; [|reflexivity].
  destruct (vertex2 uvs i0) as [[u0 v0]|]; [|reflexivity].
  destruct (vertex2 uvs i1) as [[u1 v1]|]; [|reflexivity].
  destruct (vertex2 uvs i2) as [[u2 v2]|]; [|reflexivity].
  cbn [option_map add3 vx vy vz fst snd]. f_equal.
  f_equal; try (apply vec3_eq); ring.
Qed.

Lemma computeTangents_translation_witness :
  computeTangents [1 + 0; 2 + 0; 3 + 0; 1 + 1; 2 + 0; 3 + 0; 1 + 0; 2 + 1; 3 + 0]
                  [0; 0; 1; 0; 0; 1; 0; 0; 1]
                  [0 + 5; 0 + 6; 1 + 5; 0 + 6; 0 + 5; 1 + 6] [0; 1; 2]%nat =
  computeTangents [0; 0; 0; 1; 0; 0; 0; 1; 0] [0; 0; 1; 0; 0; 1; 0; 0; 1]
                  [0; 0; 1; 0; 0; 1] [0; 1; 2]%nat.
Proof.
  apply (computeTangents_translation _ _ _ _ _ _ (Vec3 1 2 3) 5 6).
  - reflexivity.
  - intros [|[|[|i]]]; reflexivity.
  - intros [|[|[|i]]]; reflexivity.
Defined.

(** *** Uniform scaling of the mesh *)

Lemma reject_scale (k : R) (n t : vec3) :
  reject n (scale3 k t) = scale3 k (reject n t).
Proof.
  destruct n as [nx ny nz], t as [tx ty tz].
  unfold reject, scale3; cbn [vx vy vz]. apply vec3_eq; ring.
Qed.

Lemma norm_scale (k : R) (v : vec3) : 0 <= k -> norm (scale3 k v) = k * norm v.
Proof.
  intros Hk. destruct v as [x y z]. unfold norm, scale3; cbn [vx vy vz].
  replace (k * x * (k * x) + k * y * (k * y) + k * z * (k * z))
    with (k * k * (x * x + y * y + z * z)) by ring.
  rewrite sqrt_mult by (try apply sum_squares_nonneg; nra).
  rewrite sqrt_square by exact Hk. reflexivity.
Qed.

Lemma orthonormalize_scale (k : R) (n t : vec3) :
  0 < k -> orthonormalize n (scale3 k t) = orthonormalize n t.
Proof.
  intros Hk. unfold orthonormalize. cbv zeta.
  rewrite reject_scale. fold (norm (scale3 k (reject n t))). fold (norm (reject n t)).
  rewrite norm_scale by lra.
  set (r := reject n t). set (l := norm r).
  assert (Hl : 0 <= l) by (apply sqrt_pos).
  destruct (Rgt_dec l 0.0) as [H|H], (Rgt_dec (k * l) 0.0) as [H'|H'];
    rewrite lit_0_0 in H, H'.
  - rewrite !fdiv_Some by nra. f_equal.
    destruct r as [x y z]; unfold scale3; cbn [vx vy vz].
    apply vec3_eq; field; split; lra.
  - exfalso. apply H'. nra.
  - exfalso. apply H. nra.
  - assert (Hz : l = 0) by lra. apply norm_zero in Hz. rewrite Hz.
    f_equal. unfold scale3; cbn [vx vy vz]. apply vec3_eq; ring.
Qed.

(** [scaled k a' a]: the array [a'] is the array [a] with every element
    multiplied by [k]. *)
Lemma add_at_scaled (k : R) (a' a : list R) (m : nat) (x : R) :
  (forall j, a' !! j = Rmult k <$> a !! j) ->
  forall j, add_at a' m (k * x) !! j = Rmult k <$> add_at a m x !! j.
Proof.
  intros H j. rewrite !lookup_add_at, H.
  destruct (decide (j = m)); [|reflexivity].
  destruct (a !! j); [|reflexivity]. cbn. f_equal. ring.
Qed.

Lemma add_vertex3_scaled (k : R) (a' a : list R) (i : nat) (v : vec3) :
  (forall j, a' !! j = Rmult k <$> a !! j) ->
  forall j, add_vertex3 a' i (scale3 k v) !! j = Rmult k <$> add_vertex3 a i v !! j.
Proof.
  intros H. unfold add_vertex3, scale3; cbn [vx vy vz].
  do 3 apply add_at_scaled. exact H.
Qed.

Lemma vertex3_scaled (k : R) (a' a : list R) (i : nat) :
  (forall j, a' !! j = Rmult k <$> a !! j) ->
  vertex3 a' i = option_map (scale3 k) (vertex3 a i).
Proof.
  intros H. unfold vertex3. rewrite !H.
  destruct (a !! (i * 3)%nat); [|reflexivity].
  destruct (a !! (i * 3 + 1)%nat); [|reflexivity].
  destruct (a !! (i * 3 + 2)%nat); reflexivity.
Qed.

Lemma scaled_length (k : R) (a' a : list R) :
  (forall j, a' !! j = Rmult k <$> a !! j) -> length a' = length a.
Proof.
  intros H.
  destruct (Nat.lt_trichotomy (length a') (length a)) as [Hlt|[Heq|Hgt]];
    [|exact Heq|].
  - destruct (lookup_lt_is_Some_2 a (length a')) as [x Hx]; [lia|].
    pose proof (H (length a')) as Hj. rewrite Hx in Hj.
    rewrite (lookup_ge_None_2 a' (length a')) in Hj by lia. discriminate.
  - destruct (lookup_lt_is_Some_2 a' (length a)) as [x Hx]; [lia|].
    pose proof (H (length a)) as Hj. rewrite Hx in Hj.
    rewrite (lookup_ge_None_2 a (length a)) in Hj by lia. discriminate.
Qed.

Lemma accumulate_triangle_scaled (k : R) (positions positions' uvs : list R)
    (acc acc' r : buffers) (i0 i1 i2 : nat) :
  k <> 0 ->
  (forall i, vertex3 positions' i = option_map (scale3 k) (vertex3 positions i)) ->
  (forall j, tangents acc' !! j = Rmult k <$> tangents acc !! j) ->
  (forall j, bitangents acc' !! j = Rmult k <$> bitangents acc !! j) ->
  accumulate_triangle positions uvs acc i0 i1 i2 = Some r ->
  exists r',
    accumulate_triangle positions' uvs acc' i0 i1 i2 = Some r' /\
    (forall j, tangents r' !! j = Rmult k <$> tangents r !! j) /\
    (forall j, bitangents r' !! j = Rmult k <$> bitangents r !! j).
Proof.
  intros Hk Hp Ht Hb. unfold accumulate_triangle, triangle_deltas.
  rewrite !Hp.
  destruct (vertex3 positions i0) as [[x0 y0 z0]|]; [|discriminate].
  destruct (vertex3 positions i1) as [[x1 y1 z1]|]; [|discriminate].
  destruct (vertex3 positions i2) as [[x2 y2 z2]|]; [|discriminate].
  destruct (vertex2 uvs i0) as [[u0 v0]|]; [|discriminate].
  destruct (vertex2 uvs i1) as [[u1 v1]|]; [|discriminate].
  destruct (vertex2 uvs i2) as [[u2 v2]|]; [|discriminate].
  cbn [option_map scale3 vx vy vz fst snd].
  unfold denom, tangent_bitangent, denom; cbn [E1 E2 dU1 dV1 dU2 dV2 vx vy vz].
  set (den := (u1 - u0) * (v2 - v0) - (u2 - u0) * (v1 - v0)).
  destruct (Req_dec_T den 0.0) as [E|E].
  - intros [= <-]. eexists. split; [reflexivity|]. split; assumption.
  - rewrite lit_0_0 in E. rewrite !fdiv_Some by exact E. rewrite lit_1_0.
    cbn [fst snd]. intros [= <-]. eexists. split; [reflexivity|].
    cbn [tangents bitangents].
    set (Ts := Vec3 _ _ _). set (T := Vec3 _ _ _).
    set (Bs := Vec3 _ _ _). set (B := Vec3 _ _ _).
    assert (HT : Ts = scale3 k T).
    { unfold Ts, T, scale3; cbn [vx vy vz]. apply vec3_eq; ring. }
    assert (HB : Bs = scale3 k B).
    { unfold Bs, B, scale3; cbn [vx vy vz]. apply vec3_eq; ring. }
    rewrite HT, HB.
    split; do 3 apply add_vertex3_scaled; assumption.
Qed.

Lemma accumulate_scaled (k : R) (positions positions' uvs : list R)
    (indices : list nat) :
  k <> 0 ->
  (forall i, vertex3 positions' i = option_map (scale3 k) (vertex3 positions i)) ->
  forall acc acc' r,
    (forall j, tangents acc' !! j = Rmult k <$> tangents acc !! j) ->
    (forall j, bitangents acc' !! j = Rmult k <$> bitangents acc !! j) ->
    accumulate positions uvs indices acc = Some r ->
    exists r',
      accumulate positions' uvs indices acc' = Some r' /\
      (forall j, tangents r' !! j = Rmult k <$> tangents r !! j) /\
      (forall j, bitangents r' !! j = Rmult k <$> bitangents r !! j).
Proof.
  intros Hk Hp.
  induction indices as [| | |i0 i1 i2 rest IH] using triples_ind;
    intros acc acc' r Ht Hb H; cbn [accumulate] in *; try discriminate.
  - injection H as <-. eauto.
  - destruct (accumulate_triangle positions uvs acc i0 i1 i2) as [acc1|] eqn:E;
      [|discriminate].
    destruct (accumulate_triangle_scaled k _ _ _ _ _ _ _ _ _ Hk Hp Ht Hb E)
      as (acc1' & -> & Ht1 & Hb1).
    eapply IH; eassumption.
Qed.

Lemma vertex3_ext (a b : list R) (n : nat) :
  length a = (n * 3)%nat -> length b = (n * 3)%nat ->
  (forall i, (i < n)%nat -> vertex3 a i = vertex3 b i) ->
  a = b.
Proof.
  intros La Lb H. apply list_eq. intros j.
  destruct (decide (j < n * 3)%nat) as [Hj|Hj].
  - assert (Hi : (j / 3 < n)%nat) by (apply Nat.Div0.div_lt_upper_bound; lia).
    pose proof (H (j / 3)%nat Hi) as Hv. unfold vertex3 in Hv.
    pose proof (Nat.div_mod_eq j 3) as Hdm.
    pose proof (Nat.mod_upper_bound j 3 ltac:(lia)) as Hm.
    destruct (lookup_lt_is_Some_2 a (j / 3 * 3)) as [x0 E0]; [lia|].
    destruct (lookup_lt_is_Some_2 a (j / 3 * 3 + 1)) as [x1 E1]; [lia|].
    destruct (lookup_lt_is_Some_2 a (j / 3 * 3 + 2)) as [x2 E2]; [lia|].
    destruct (lookup_lt_is_Some_2 b (j / 3 * 3)) as [y0 F0]; [lia|].
    destruct (lookup_lt_is_Some_2 b (j / 3 * 3 + 1)) as [y1 F1]; [lia|].
    destruct (lookup_lt_is_Some_2 b (j / 3 * 3 + 2)) as [y2 F2]; [lia|].
    rewrite E0, E1, E2, F0, F1, F2 in Hv. injection Hv as -> -> ->.
    assert (Hcase : j = (j / 3 * 3)%nat \/ j = (j / 3 * 3 + 1)%nat
                    \/ j = (j / 3 * 3 + 2)%nat) by lia.
    set (q := (j / 3)%nat) in *. clearbody q.
    destruct Hcase as [->|[->| ->]]; congruence.
  - rewrite !lookup_ge_None_2 by lia. reflexivity.
Qed.

Lemma zeros_scaled (k : R) (n j : nat) :
  replicate n 0 !! j = Rmult k <$> replicate n 0 !! j.
Proof.
  destruct (decide (j < n)%nat) as [Hj|Hj].
  - rewrite !lookup_replicate_2 by exact Hj. cbn. f_equal. ring.
  - rewrite !lookup_ge_None_2 by (rewrite length_replicate; lia). reflexivity.
Qed.

(** X13: the size of the mesh does not matter.  Scaling every position
    by the same positive factor leaves the result of [computeTangents]
    as it is. *)
Theorem computeTangents_scale (positions positions' normals uvs : list R)
    (indices : list nat) (k : R) (out : buffers) :
  0 < k ->
  length positions' = length positions ->
  (forall i, vertex3 positions' i = option_map (scale3 k) (vertex3 positions i)) ->
  computeTangents positions normals uvs indices = Some out ->
  computeTangents positions' normals uvs indices = Some out.
Proof.
  intros Hk Hl Hp H. apply computeTangents_inv in H. cbv zeta in H.
  set (vc := (length positions / 3)%nat) in *.
  destruct H as (acc & Ha & Lt & Lb & F).
  destruct (accumulate_scaled k positions positions' uvs indices
              ltac:(lra) Hp
              {| tangents := replicate (vc * 3) 0;
                 bitangents := replicate (vc * 3) 0 |}
              {| tangents := replicate (vc * 3) 0;
                 bitangents := replicate (vc * 3) 0 |} acc
              (zeros_scaled k (vc * 3)) (zeros_scaled k (vc * 3)) Ha)
    as (acc' & Ha' & St & Sb).
  pose proof (accumulate_length _ _ _ _ _ Ha) as [Lat Lab].
  cbn [tangents bitangents] in Lat, Lab. rewrite length_replicate in Lat, Lab.
  pose proof (scaled_length k _ _ St) as Lt'.
  pose proof (scaled_length k _ _ Sb) as Lb'.
  assert (Ln : (vc * 3 <= length normals)%nat).
  { destruct vc as [|m] eqn:Evc; [lia|].
    destruct (F m ltac:(lia)) as (n & _ & _ & _ & _ & Hn & _).
    apply vertex3_lt in Hn. lia. }
  destruct (finalize_Some normals vc 0 acc') as [out' Ho']; try lia.
  assert (Hout' : computeTangents positions' normals uvs indices = Some out').
  { unfold computeTangents. cbv zeta. rewrite Hl. fold vc. rewrite Ha'. exact Ho'. }
  rewrite Hout'. f_equal.
  apply finalize_seq in Ho'. destruct Ho' as (Lot & Lob & F' & _).
  assert (Hv : forall i, (i < vc)%nat ->
            vertex3 (tangents out') i = vertex3 (tangents out) i /\
            vertex3 (bitangents out') i = vertex3 (bitangents out) i).
  { intros i Hi.
    destruct (F i Hi) as (n & t & b & t1 & b1 & Hn & Ht & Hb & Ht1 & Hb1 & Ot & Ob).
    destruct (F' i ltac:(lia))
      as (n' & t' & b' & t2 & b2 & Hn' & Ht' & Hb' & Ht2 & Hb2 & Ot' & Ob').
    assert (n' = n) by congruence. subst n'.
    rewrite (vertex3_scaled k _ _ i St), Ht in Ht'.
    rewrite (vertex3_scaled k _ _ i Sb), Hb in Hb'.
    injection Ht' as <-. injection Hb' as <-.
    rewrite orthonormalize_scale in Ht2, Hb2 by exact Hk.
    split; congruence. }
  destruct out as [ot ob], out' as [ot' ob']. cbn [tangents bitangents] in *.
  f_equal; apply (vertex3_ext _ _ vc); try lia; intros i Hi; apply Hv; exact Hi.
Qed.

Lemma computeTangents_scale_witness :
  computeTangents [2 * 0; 2 * 0; 2 * 0; 2 * 1; 2 * 0; 2 * 0; 2 * 0; 2 * 1; 2 * 0]
                  [0; 0; 1; 0; 0; 1; 0; 0; 1] [0; 0; 1; 0; 0; 1] [0; 1; 2]%nat =
    Some {| tangents := [1; 0; 0; 1; 0; 0; 1; 0; 0];
            bitangents := [0; 1; 0; 0; 1; 0; 0; 1; 0] |}.
Proof.
  apply (computeTangents_scale [0; 0; 0; 1; 0; 0; 0; 1; 0] _ _ _ _ 2).
  - lra.
  - reflexivity.
  - intros [|[|[|i]]]; reflexivity.
  - apply computeTangents_unit_triangle.
Defined.

(** ** Asset loader *)

Lemma vertex2_zeros (n i : nat) (t : R * R) :
  vertex2 (replicate n 0) i = Some t -> t = (0, 0).
Proof.
  unfold vertex2. intros H.
  destruct (replicate n 0 !! (i * 2)%nat) as [u|] eqn:Eu; [|discriminate].
  destruct (replicate n 0 !! (i * 2 + 1)%nat) as [v|] eqn:Ev; [|discriminate].
  apply lookup_replicate_1 in Eu as [-> _]. apply lookup_replicate_1 in Ev as [-> _].
  congruence.
Qed.

(** With texture coordinates that are all zero every triangle is
    skipped. *)
Lemma accumulate_zero_uvs (positions : list R) (n : nat) (indices : list nat) :
  forall acc acc',
    accumulate positions (replicate n 0) indices acc = Some acc' -> acc' = acc.
Proof.
  induction indices as [| | |i0 i1 i2 rest IH] using triples_ind;
    intros acc acc' H; cbn [accumulate] in H; try discriminate.
  - congruence.
  - destruct (accumulate_triangle positions (replicate n 0) acc i0 i1 i2)
      as [acc1|] eqn:E; [|discriminate].
    apply IH in H. subst acc'.
    unfold accumulate_triangle in E.
    destruct (triangle_deltas positions (replicate n 0) i0 i1 i2) as [d|] eqn:Hd;
      [|discriminate].
    assert (Hden : denom d = 0).
    { unfold triangle_deltas in Hd.
      destruct (vertex3 positions i0); [|discriminate].
      destruct (vertex3 positions i1); [|discriminate].
      destruct (vertex3 positions i2); [|discriminate].
      destruct (vertex2 (replicate n 0) i0) as [t0|] eqn:U0; [|discriminate].
      destruct (vertex2 (replicate n 0) i1) as [t1|] eqn:U1; [|discriminate].
      destruct (vertex2 (replicate n 0) i2) as [t2|] eqn:U2; [|discriminate].
      apply vertex2_zeros in U0, U1, U2. subst t0 t1 t2.
      injection Hd as <-. unfold denom; cbn. ring. }
    destruct (Req_dec_T (denom d) 0.0) as [E0|E0]; [congruence|].
    rewrite lit_0_0 in E0. contradiction.
Qed.

Lemma computeTangents_zero_uvs (positions normals : list R) (n : nat)
    (indices : list nat) (out : buffers) (i : nat) :
  computeTangents positions normals (replicate n 0) indices = Some out ->
  (i < length positions / 3)%nat ->
  vertex3 (tangents out) i = Some (Vec3 0 0 0) /\
  vertex3 (bitangents out) i = Some (Vec3 0 0 0).
Proof.
  intros H Hi. apply computeTangents_inv in H. cbv zeta in H.
  destruct H as (acc & Ha & _ & _ & F).
  apply accumulate_zero_uvs in Ha. subst acc.
  destruct (F i Hi) as (nrm & t & b & t' & b' & _ & Ht & Hb & Ht' & Hb' & Ot & Ob).
  cbn [tangents bitangents] in Ht, Hb.
  rewrite vertex3_replicate in Ht, Hb by exact Hi.
  injection Ht as <-. injection Hb as <-.
  rewrite orthonormalize_zero in Ht', Hb'. split; congruence.
Qed.

(** The copy into a [Uint32Array], one store at a time: after the
    first [m] stores the first [m] elements are copied and the rest is
    still zero. *)
Lemma to_Uint32Array_steps (indices : list nat) (m : nat) :
  (m <= length indices)%nat ->
  Forall (fun v => v < 2 ^ 32)%nat indices ->
  fold_left
    (fun tmp i =>
       <[i := match indices !! i with
              | Some v => v mod 2 ^ 32
              | None => 0
              end]> tmp)%nat
    (seq 0 m) (replicate (length indices) 0%nat)
  = take m indices ++ replicate (length indices - m) 0%nat.
Proof.
  intros Hm Hall. induction m as [|m IH].
  - cbn. rewrite Nat.sub_0_r. reflexivity.
  - rewrite seq_S, fold_left_app, IH by lia. cbn [fold_left Nat.add].
    destruct (lookup_lt_is_Some_2 indices m) as [v Hv]; [lia|].
    rewrite Hv.
    rewrite Nat.mod_small
      by (rewrite Forall_forall in Hall; apply Hall;
          eapply list_elem_of_lookup_2; exact Hv).
    rewrite insert_app_r_alt by (rewrite length_take; lia).
    rewrite length_take, Nat.min_l by lia. rewrite Nat.sub_diag.
    replace (length indices - m)%nat with (S (length indices - S m)) by lia.
    cbn [replicate]. cbn.
    rewrite (take_S_r indices m v Hv), <- app_assoc. reflexivity.
Qed.

Lemma to_Uint32Array_id (indices : list nat) :
  Forall (fun v => v < 2 ^ 32)%nat indices ->
  to_Uint32Array indices = indices.
Proof.
  intros H. unfold to_Uint32Array.
  rewrite to_Uint32Array_steps by (auto; lia).
  rewrite Nat.sub_diag, firstn_all. cbn. apply app_nil_r.
Qed.

Lemma sequential_indices_steps (n m : nat) :
  fold_left (fun indices i => <[i := i]> indices) (seq 0 m) (replicate n 0%nat)
  = seq 0 (Nat.min m n) ++ replicate (n - m) 0%nat.
Proof.
  induction m as [|m IH].
  - cbn. rewrite Nat.sub_0_r. reflexivity.
  - rewrite seq_S, fold_left_app, IH. cbn [fold_left Nat.add].
    destruct (decide (m < n)%nat) as [Hlt|Hge].
    + rewrite Nat.min_l by lia. rewrite (Nat.min_l (S m)) by lia.
      rewrite insert_app_r_alt by (rewrite length_seq; lia).
      rewrite length_seq, Nat.sub_diag.
      replace (n - m)%nat with (S (n - S m)) by lia.
      change (<[0%nat := m]> (replicate (S (n - S m)) 0%nat))
        with (m :: replicate (n - S m) 0%nat).
      rewrite (seq_S m 0), <- app_assoc. reflexivity.
    + rewrite list_insert_ge
        by (rewrite length_app, length_seq, length_replicate; lia).
      rewrite !Nat.min_r by lia.
      replace (n - S m)%nat with 0%nat by lia.
      replace (n - m)%nat with 0%nat by lia. reflexivity.
Qed.

Lemma sequential_indices_seq (positions : list R) :
  sequential_indices positions = seq 0 (length positions / 3).
Proof.
  unfold sequential_indices. rewrite sequential_indices_steps.
  assert (H : (length positions / 3 <= (length positions + 2) / 3)%nat)
    by (apply Nat.Div0.div_le_mono; lia).
  rewrite Nat.min_r by exact H.
  replace (length positions / 3 - (length positions + 2) / 3)%nat with 0%nat by lia.
  apply app_nil_r.
Qed.

(** X14: the conversion of the index array to 32 bits keeps the
    indices.  For index values that fit 32 bits the GLTF loader gives
    the same mesh data whether or not the array was a [Uint32Array],
    and the index data it uploads is the geometry's, [indexCount] being
    its length. *)
Theorem gltf_mesh_index_conversion (positions normals : list R)
    (uv : option (list R)) (b : bool) (values : list nat) :
  Forall (fun v => v < 2 ^ 32)%nat values ->
  gltf_mesh (Geometry positions normals uv (Some (IndexArray b values))) =
  gltf_mesh (Geometry positions normals uv (Some (IndexArray true values)))
  /\ forall m,
       gltf_mesh (Geometry positions normals uv (Some (IndexArray b values)))
         = Some m ->
       indexBuffer m = values /\ indexCount m = length values.
Proof.
  intros Hfit.
  assert (Heq : gltf_mesh (Geometry positions normals uv (Some (IndexArray b values))) =
                gltf_mesh (Geometry positions normals uv (Some (IndexArray true values)))).
  { unfold gltf_mesh. cbn [attr_position attr_normal attr_uv geom_index
                           is_Uint32Array index_values].
    destruct b; [reflexivity|]. rewrite to_Uint32Array_id by exact Hfit.
    reflexivity. }
  split; [exact Heq|].
  intros m. rewrite Heq. unfold gltf_mesh.
  cbn [attr_position attr_normal attr_uv geom_index is_Uint32Array index_values].
  destruct (computeTangents _ _ _ values); [|discriminate].
  intros [= <-]. split; reflexivity.
Qed.

Lemma small_index_fits (v : nat) : (v <= 32)%nat -> (v < 2 ^ 32)%nat.
Proof. intros H. pose proof (Nat.pow_gt_lin_r 2 32 ltac:(lia)). lia. Qed.

Lemma gltf_mesh_index_conversion_witness :
  gltf_mesh (Geometry [0; 0; 0; 1; 0; 0; 0; 1; 0] [0; 0; 1; 0; 0; 1; 0; 0; 1]
               None (Some (IndexArray false [0; 1; 2]%nat))) =
  gltf_mesh (Geometry [0; 0; 0; 1; 0; 0; 0; 1; 0] [0; 0; 1; 0; 0; 1; 0; 0; 1]
               None (Some (IndexArray true [0; 1; 2]%nat))).
Proof.
  apply (gltf_mesh_index_conversion
           [0; 0; 0; 1; 0; 0; 0; 1; 0] [0; 0; 1; 0; 0; 1; 0; 0; 1]
           None false [0; 1; 2]%nat).
  repeat (apply Forall_cons; split; [apply small_index_fits; lia|]).
  apply Forall_nil_2.
Defined.

(** X15: a mesh without texture coordinates gets no tangent frame.
    When the geometry has no [uv] attribute both loaders hand zeros to
    [computeTangents], and every vertex of the mesh data they return
    has the zero vector for tangent and for bitangent. *)
Theorem missing_uv_zero_tangents (g : geometry) (m : mesh_data) (i : nat) :
  attr_uv g = None ->
  gltf_mesh g = Some m \/ obj_mesh g = Some m ->
  (i < length (attr_position g) / 3)%nat ->
  uvBuffer m = replicate (length (attr_position g) * 2 / 3) 0 /\
  vertex3 (tangentBuffer m) i = Some (Vec3 0 0 0) /\
  vertex3 (bitangentBuffer m) i = Some (Vec3 0 0 0).
Proof.
  intros Huv Hm Hi. unfold gltf_mesh, obj_mesh in Hm. rewrite Huv in Hm.
  unfold default_uvs in Hm. cbv zeta in Hm.
  destruct Hm as [Hm|Hm].
  - destruct (geom_index g) as [index|]; [|discriminate].
    destruct (computeTangents _ _ _ _) as [TB|] eqn:HTB; [|discriminate].
    injection Hm as <-. cbn [uvBuffer tangentBuffer bitangentBuffer].
    split; [reflexivity|]. eapply computeTangents_zero_uvs; eassumption.
  - destruct (computeTangents _ _ _ _) as [TB|] eqn:HTB; [|discriminate].
    injection Hm as <-. cbn [uvBuffer tangentBuffer bitangentBuffer].
    split; [reflexivity|]. eapply computeTangents_zero_uvs; eassumption.
Qed.

Lemma well_formed_example :
  well_formed [0; 0; 0; 1; 0; 0; 0; 1; 0] [0; 0; 1; 0; 0; 1; 0; 0; 1]
              (default_uvs [0; 0; 0; 1; 0; 0; 0; 1; 0]) [0; 1; 2]%nat 3.
Proof.
  unfold well_formed. cbn.
  repeat split; try reflexivity; [exists 1%nat; reflexivity|].
  repeat constructor; lia.
Qed.

Lemma missing_uv_zero_tangents_witness :
  exists m,
    gltf_mesh (Geometry [0; 0; 0; 1; 0; 0; 0; 1; 0] [0; 0; 1; 0; 0; 1; 0; 0; 1]
                 None (Some (IndexArray true [0; 1; 2]%nat))) = Some m /\
    uvBuffer m = replicate (9 * 2 / 3) 0 /\
    vertex3 (tangentBuffer m) 1 = Some (Vec3 0 0 0) /\
    vertex3 (bitangentBuffer m) 1 = Some (Vec3 0 0 0).
Proof.
  destruct (computeTangents_spec _ _ _ _ _ well_formed_example)
    as (acc & out & _ & Hout & _).
  eexists. split.
  - unfold gltf_mesh.
    cbn [attr_position attr_normal attr_uv geom_index is_Uint32Array index_values].
    rewrite Hout. reflexivity.
  - apply (missing_uv_zero_tangents
             (Geometry [0; 0; 0; 1; 0; 0; 0; 1; 0] [0; 0; 1; 0; 0; 1; 0; 0; 1]
                None (Some (IndexArray true [0; 1; 2]%nat)))).
    + reflexivity.
    + left. unfold gltf_mesh.
      cbn [attr_position attr_normal attr_uv geom_index is_Uint32Array index_values].
      rewrite Hout. reflexivity.
    + cbn. lia.
Defined.

(** X16: an OBJ geometry without index is read as a triangle soup.  The
    indices made for it are [0, 1, ..., vertexCount - 1]; when the
    vertices come in whole triangles and the normals (and the texture
    coordinates, if there are any) have one entry for each vertex, the
    loader returns mesh data, with [vertexCount] indices and tangent and
    bitangent arrays as long as the positions. *)
Theorem obj_mesh_without_index (positions normals : list R)
    (uv : option (list R)) (triangles : nat) :
  length positions = (triangles * 3 * 3)%nat ->
  length normals = length positions ->
  (forall a, uv = Some a -> length a = (triangles * 3 * 2)%nat) ->
  exists m,
    obj_mesh (Geometry positions normals uv None) = Some m /\
    indexBuffer m = seq 0 (triangles * 3) /\
    indexCount m = (triangles * 3)%nat /\
    length (tangentBuffer m) = length positions /\
    length (bitangentBuffer m) = length positions.
Proof.
  intros Hp Hn Hu.
  set (uvs := match uv with Some a => a | None => default_uvs positions end).
  assert (Hidx : sequential_indices positions = seq 0 (triangles * 3)).
  { rewrite sequential_indices_seq, Hp, Nat.div_mul by lia. reflexivity. }
  assert (Hwf : well_formed positions normals uvs (seq 0 (triangles * 3))
                            (triangles * 3)).
  { unfold well_formed. split; [exact Hp|]. split; [congruence|]. split.
    - unfold uvs. destruct uv as [a|]; [apply Hu; reflexivity|].
      unfold default_uvs. rewrite length_replicate, Hp.
      replace (triangles * 3 * 3 * 2)%nat with (triangles * 3 * 2 * 3)%nat by lia.
      apply Nat.div_mul. lia.
    - split; [exists triangles; apply length_seq|].
      apply Forall_forall. intros i Hi. apply elem_of_seq in Hi. lia. }
  destruct (computeTangents_spec _ _ _ _ _ Hwf) as (acc & out & _ & Hout & Lt & Lb & _).
  eexists. split.
  - unfold obj_mesh. cbn [attr_position attr_normal attr_uv geom_index].
    fold uvs. rewrite Hidx, Hout. reflexivity.
  - cbn [indexBuffer indexCount tangentBuffer bitangentBuffer].
    rewrite length_seq. repeat split; congruence.
Qed.

Lemma obj_mesh_without_index_witness :
  exists m,
    obj_mesh (Geometry [0; 0; 0; 1; 0; 0; 0; 1; 0] [0; 0; 1; 0; 0; 1; 0; 0; 1]
                (Some [0; 0; 1; 0; 0; 1]) None) = Some m /\
    indexBuffer m = seq 0 (1 * 3) /\
    indexCount m = (1 * 3)%nat /\
    length (tangentBuffer m) = length [0; 0; 0; 1; 0; 0; 0; 1; 0] /\
    length (bitangentBuffer m) = length [0; 0; 0; 1; 0; 0; 0; 1; 0].
Proof.
  apply (obj_mesh_without_index
           [0; 0; 0; 1; 0; 0; 0; 1; 0] [0; 0; 1; 0; 0; 1; 0; 0; 1]
           (Some [0; 0; 1; 0; 0; 1]) 1).
  - reflexivity.
  - reflexivity.
  - intros a [= <-]. reflexivity.
Defined.

(** ** Camera control *)

Section CameraProps.

Variable perspective : R -> R -> R -> R -> option mat4.

Lemma update_VP_inv (s s1 : UI) :
  update_VP perspective s = Some s1 ->
  exists aspect P,
    fdiv (width (canvas s)) (height (canvas s)) = Some aspect /\
    perspective (degToRad (fovy (camera s))) aspect
                (near (camera s)) (far (camera s)) = Some P /\
    s1 = MkUI (mouseMove s) (camera s)
           (MkMatrices (Some P)
              (Some (default identity (mat_R (matrices s))))
              (Some (multiply (translate P (camera_position (camera s)))
                              (default identity (mat_R (matrices s))))))
           (canvas s).
Proof.
  unfold update_VP. intros H.
  destruct (fdiv _ _) as [aspect|] eqn:Ha; [|discriminate].
  destruct (perspective _ _ _ _) as [P|] eqn:HP; [|discriminate].
  injection H as <-. exists aspect, P.
  split; [reflexivity|]. split; [exact HP|].
  destruct (mat_R (matrices s)); reflexivity.
Qed.

Lemma update_VP_frame (s s1 : UI) :
  update_VP perspective s = Some s1 ->
  mouseMove s1 = mouseMove s /\ camera s1 = camera s /\ canvas s1 = canvas s /\
  mat_R (matrices s1) = Some (default identity (mat_R (matrices s))).
Proof.
  intros H. destruct (update_VP_inv s s1 H) as (aspect & P & _ & _ & ->).
  repeat split.
Qed.

(** X17: [update_VP] settles.  It leaves the mode, the camera and the
    canvas alone, keeps a rotation [R] that is already there (and
    starts it as the identity when there is none), and running it a
    second time changes nothing. *)
Theorem update_VP_idempotent (s s1 : UI) :
  update_VP perspective s = Some s1 ->
  update_VP perspective s1 = Some s1 /\
  mouseMove s1 = mouseMove s /\ camera s1 = camera s /\ canvas s1 = canvas s /\
  mat_R (matrices s1) = Some (default identity (mat_R (matrices s))).
Proof.
  intros H. split; [|apply update_VP_frame; exact H].
  destruct (update_VP_inv s s1 H) as (aspect & P & Ha & HP & ->).
  unfold update_VP. cbn [canvas camera matrices mat_R mouseMove].
  rewrite Ha, HP. reflexivity.
Qed.

(** X18: the order of the view transform.  After [update_VP] the matrix
    [VP] takes a point through the rotation [R] first, then moves it by
    [camera.position], then applies the projection [P]. *)
Theorem update_VP_composition (s s1 : UI) :
  update_VP perspective s = Some s1 ->
  exists P R0 VP,
    mat_P (matrices s1) = Some P /\
    mat_R (matrices s1) = Some R0 /\
    mat_VP (matrices s1) = Some VP /\
    forall v,
      transformMat4 v VP =
        let r := transformMat4 v R0 in
        let p := camera_position (camera s) in
        transformMat4 (Vec4 (e0 r + vx p * e3 r) (e1 r + vy p * e3 r)
                            (e2 r + vz p * e3 r) (e3 r)) P.
Proof.
  intros H. destruct (update_VP_inv s s1 H) as (aspect & P & _ & _ & ->).
  do 3 eexists. cbn [matrices mat_P mat_R mat_VP].
  repeat (split; [reflexivity|]).
  intros v. unfold transformMat4, multiply, translate. cbn.
  apply vec4_eq; ring.
Qed.

Lemma Rmax_Rmin_bounds (x : R) : 1 <= Rmax 1 (Rmin x 50) <= 50.
Proof.
  unfold Rmax, Rmin.
  destruct (Rle_dec x 50), (Rle_dec 1 _); lra.
Qed.

Lemma Rmax_Rmin_inside (x : R) : 1 <= x <= 50 -> Rmax 1 (Rmin x 50) = x.
Proof.
  intros H. unfold Rmax, Rmin.
  destruct (Rle_dec x 50), (Rle_dec 1 _); lra.
Qed.

(** X19: the wheel keeps the camera between 1 and 50 from the scene.
    After [onwheel] the Z of [camera.position] lies in [[-50, -1]]
    whatever [deltaY] was; it has moved by [- 0.01 * deltaY] when that
    stays inside the range; and nothing else of the camera, nor the
    mode, has changed. *)
Theorem onwheel_clamps (ev : Event) (s s1 : UI) :
  onwheel perspective ev s = Some s1 ->
  let z := vz (camera_position (camera s)) in
  let z1 := vz (camera_position (camera s1)) in
  -50 <= z1 <= -1 /\
  (1 <= - z + deltaY ev * 0.01 <= 50 -> z1 = z - deltaY ev * 0.01) /\
  vx (camera_position (camera s1)) = vx (camera_position (camera s)) /\
  vy (camera_position (camera s1)) = vy (camera_position (camera s)) /\
  fovy (camera s1) = fovy (camera s) /\
  near (camera s1) = near (camera s) /\ far (camera s1) = far (camera s) /\
  mouseMove s1 = mouseMove s.
Proof.
  unfold onwheel. cbv zeta. intros H.
  apply update_VP_frame in H. destruct H as (Hm & Hc & _).
  rewrite Hm, Hc. cbn [camera camera_position fovy near far mouseMove vx vy vz].
  pose proof (Rmax_Rmin_bounds
                (- vz (camera_position (camera s)) + deltaY ev * 0.01)) as Hb.
  split; [lra|]. split; [|repeat split].
  intros Hin. rewrite Rmax_Rmin_inside by exact Hin. lra.
Qed.

End CameraProps.

Lemma onwheel_clamps_witness :
  exists s1,
    onwheel (fun _ _ _ _ => Some identity)
            (MkEvent 0 false false 0 0 100000)
            (MkUI NONE initial_camera (MkMatrices None None None)
                  (MkCanvas 800 600 800 600)) = Some s1 /\
    -50 <= vz (camera_position (camera s1)) <= -1.
Proof.
  assert (H : exists s1,
    onwheel (fun _ _ _ _ => Some identity)
            (MkEvent 0 false false 0 0 100000)
            (MkUI NONE initial_camera (MkMatrices None None None)
                  (MkCanvas 800 600 800 600)) = Some s1).
  { unfold onwheel, update_VP. cbn [canvas width height].
    rewrite fdiv_Some by lra. eexists. reflexivity. }
  destruct H as [s1 H]. exists s1. split; [exact H|].
  apply (onwheel_clamps (fun _ _ _ _ => Some identity) _ _ _ H).
Defined.

Lemma update_VP_idempotent_witness :
  exists s1,
    update_VP (fun _ _ _ _ => Some identity)
      (MkUI NONE initial_camera (MkMatrices None None None)
            (MkCanvas 800 600 800 600)) = Some s1 /\
    update_VP (fun _ _ _ _ => Some identity) s1 = Some s1.
Proof.
  assert (H : exists s1,
    update_VP (fun _ _ _ _ => Some identity)
      (MkUI NONE initial_camera (MkMatrices None None None)
            (MkCanvas 800 600 800 600)) = Some s1).
  { unfold update_VP. cbn [canvas width height].
    rewrite fdiv_Some by lra. eexists. reflexivity. }
  destruct H as [s1 H]. exists s1. split; [exact H|].
  apply (update_VP_idempotent (fun _ _ _ _ => Some identity) _ _ H).
Defined.

Lemma update_VP_composition_witness :
  exists s1,
    update_VP (fun _ _ _ _ => Some identity)
      (MkUI NONE initial_camera (MkMatrices None None None)
            (MkCanvas 800 600 800 600)) = Some s1 /\
    exists VP,
      mat_VP (matrices s1) = Some VP /\
      transformMat4 (Vec4 0 0 0 1) VP = Vec4 (-0.2) (-0.5) (-4) 1.
Proof.
  assert (H : exists s1,
    update_VP (fun _ _ _ _ => Some identity)
      (MkUI NONE initial_camera (MkMatrices None None None)
            (MkCanvas 800 600 800 600)) = Some s1).
  { unfold update_VP. cbn [canvas width height].
    rewrite fdiv_Some by lra. eexists. reflexivity. }
  destruct H as [s1 H]. exists s1. split; [exact H|].
  destruct (update_VP_composition (fun _ _ _ _ => Some identity) _ _ H)
    as (P & R0 & VP & HP & HR & HVP & Hv).
  exists VP. split; [exact HVP|]. rewrite Hv. cbv zeta.
  apply update_VP_inv in H. destruct H as (a & P' & _ & [= <-] & ->).
  cbn [matrices mat_P mat_R default camera initial_camera camera_position] in *.
  injection HP as <-. injection HR as <-.
  rewrite !transformMat4_identity. cbn [e0 e1 e2 e3 vx vy vz].
  apply vec4_eq; ring.
Defined.



Lemma unproject_vector_zero_Some (MVP : mat4) (viewport : vec4) :
  det MVP <> 0 -> e2 viewport <> 0 -> e3 viewport <> 0 ->
  e3 (transformMat4 (Vec4 0 0 0 1) MVP) <> 0 ->
  unproject_vector (Vec3 0 0 0) MVP viewport = Some (Vec4 0 0 0 1).
Proof.
  intros Hd Hw Hh Hc.
  destruct (roundtrip_origin MVP viewport Hd Hw Hh Hc) as (o & Ho & Ho1 & Hu).
  unfold unproject_vector. cbn [vx vy vz]. rewrite Ho.
  replace (Vec4 (e0 o + 0) (e1 o + 0) (e2 o + 0) 1) with o; [exact Hu|].
  destruct o as [a b c d]; cbn [e0 e1 e2 e3] in *. subst d.
  apply vec4_eq; try reflexivity; ring.
Qed.


Lemma rotate_last_column (m m' : mat4) (axis : vec3) (a : R) :
  rotate m axis a = Some m' ->
  m30 m' = m30 m /\ m31 m' = m31 m /\ m32 m' = m32 m /\ m33 m' = m33 m.
Proof.
  unfold rotate. cbv zeta. intros H.
  destruct (fdiv (vx axis) _); [|discriminate].
  destruct (fdiv (vy axis) _); [|discriminate].
  destruct (fdiv (vz axis) _); [|discriminate].
  injection H as <-. repeat split.
Qed.

(** The state used to show the handlers at work: a camera four units
    in front of the scene, an 800 by 600 canvas, no matrix set yet, and
    a projection that is the identity. *)
Lemma example_update_VP (mm : mode) :
  update_VP (fun _ _ _ _ => Some identity)
    (MkUI mm (MkCamera 45 (Vec3 0 0 (-4)) 1 100)
          (MkMatrices None None None) (MkCanvas 800 600 800 600)) =
  Some (MkUI mm (MkCamera 45 (Vec3 0 0 (-4)) 1 100)
          (MkMatrices (Some identity) (Some identity)
             (Some (multiply (translate identity (Vec3 0 0 (-4))) identity)))
          (MkCanvas 800 600 800 600)).
Proof.
  unfold update_VP. cbn [canvas width height].
  rewrite fdiv_Some by lra. reflexivity.
Qed.

Lemma example_unproject_vector_zero :
  unproject_vector (Vec3 0 0 0)
    (multiply (translate identity (Vec3 0 0 (-4))) identity)
    (Vec4 0 0 800 600) = Some (Vec4 0 0 0 1).
Proof.
  apply unproject_vector_zero_Some.
  - unfold det, cofactors0, multiply, translate, identity. cbn. lra.
  - cbn. lra.
  - cbn. lra.
  - unfold transformMat4, multiply, translate, identity. cbn. lra.
Qed.

Section DragProps.

Variable perspective : R -> R -> R -> R -> option mat4.


(** X21: the rotation [R] never picks up a translation.  Each handler
    keeps [no_translation]: [update_VP] starts [R] as the identity and
    a rotating drag multiplies it by a rotation, which leaves the last
    column alone. *)
Theorem handlers_keep_no_translation (ev : Event) (s : UI) :
  no_translation s ->
  no_translation (onmousedown ev s) /\
  no_translation (onmouseup ev s) /\
  (forall s1, update_VP perspective s = Some s1 -> no_translation s1) /\
  (forall s1, onwheel perspective ev s = Some s1 -> no_translation s1) /\
  (forall s1, onmousemove perspective ev s = Some s1 -> no_translation s1).
Proof.
  intros Hs.
  assert (Hup : forall s0 s1, no_translation s0 ->
            update_VP perspective s0 = Some s1 -> no_translation s1).
  { intros s0 s1 H0 H. apply update_VP_frame in H.
    destruct H as (_ & _ & _ & HR). intros r Hr. rewrite HR in Hr.
    injection Hr as <-. destruct (mat_R (matrices s0)) as [r0|] eqn:E.
    - cbn [default]. apply H0. exact E.
    - cbn. repeat split; reflexivity. }
  split; [|split; [|split; [|split]]].
  - unfold onmousedown. destruct (buttons ev =? 1)%nat; [|exact Hs].
    destruct (metaKey ev || ctrlKey ev); exact Hs.
  - exact Hs.
  - intros s1. apply Hup. exact Hs.
  - intros s1. unfold onwheel. cbv zeta. apply Hup. exact Hs.
  - intros s1. unfold onmousemove. cbv zeta.
    destruct (mouseMove s).
    + intros [= <-]. exact Hs.
    + destruct (update_VP perspective s) as [s2|] eqn:E; [|discriminate].
      pose proof (Hup s s2 Hs E) as H2.
      destruct (mat_VP (matrices s2)) as [VP|]; [|discriminate].
      destruct (mat_R (matrices s2)) as [R0|] eqn:ER; [|discriminate].
      destruct (unproject_vector _ VP _) as [axis|]; [|discriminate].
      destruct (rotate R0 _ _) as [R1|] eqn:Erot; [|discriminate].
      intros [= <-]. intros r Hr. cbn [matrices mat_R] in Hr.
      injection Hr as <-.
      apply rotate_last_column in Erot. destruct Erot as (-> & -> & -> & ->).
      apply H2. exact ER.
    + destruct (update_VP perspective s) as [s2|] eqn:E; [|discriminate].
      pose proof (Hup s s2 Hs E) as H2.
      destruct (mat_VP (matrices s2)) as [VP|]; [|discriminate].
      destruct (mat_R (matrices s2)) as [R0|] eqn:ER; [|discriminate].
      destruct (unproject_vector _ VP _) as [by'|]; [|discriminate].
      intros [= <-]. exact H2.
Qed.


(** X23: what a mouse move leaves alone.  [onmousemove] never changes
    the mode or the canvas; without a drag it changes nothing at all; a
    rotating drag leaves the camera alone; and a translating drag
    changes nothing of the camera but its position, and leaves [R] as
    [update_VP] has it. *)
Theorem onmousemove_frame (ev : Event) (s s1 : UI) :
  onmousemove perspective ev s = Some s1 ->
  mouseMove s1 = mouseMove s /\ canvas s1 = canvas s /\
  (mouseMove s = NONE -> s1 = s) /\
  (mouseMove s = ROTATING -> camera s1 = camera s) /\
  (mouseMove s = TRANSLATING ->
   fovy (camera s1) = fovy (camera s) /\
   near (camera s1) = near (camera s) /\ far (camera s1) = far (camera s) /\
   mat_R (matrices s1) = Some (default identity (mat_R (matrices s)))).
Proof.
  unfold onmousemove. cbv zeta.
  destruct (mouseMove s) eqn:Hm.
  - intros [= <-]. rewrite Hm. repeat split; try discriminate; reflexivity.
  - destruct (update_VP perspective s) as [s2|] eqn:E; [|discriminate].
    pose proof (update_VP_frame perspective s s2 E) as (Hmm & Hc & Hcv & HR).
    destruct (mat_VP (matrices s2)) as [VP|]; [|discriminate].
    destruct (mat_R (matrices s2)) as [R0|]; [|discriminate].
    destruct (unproject_vector _ VP _) as [axis|]; [|discriminate].
    destruct (rotate R0 _ _) as [R1|]; [|discriminate].
    intros [= <-]. cbn [mouseMove camera canvas].
    repeat split; try discriminate; congruence.
  - destruct (update_VP perspective s) as [s2|] eqn:E; [|discriminate].
    pose proof (update_VP_frame perspective s s2 E) as (Hmm & Hc & Hcv & HR).
    destruct (mat_VP (matrices s2)) as [VP|]; [|discriminate].
    destruct (mat_R (matrices s2)) as [R0|] eqn:ER; [|discriminate].
    destruct (unproject_vector _ VP _) as [by'|]; [|discriminate].
    intros [= <-]. cbn [mouseMove camera canvas matrices fovy near far].
    repeat split; try discriminate; congruence.
Qed.

End DragProps.

Lemma example_translating_move :
  exists s1,
    onmousemove (fun _ _ _ _ => Some identity)
      (MkEvent 1 false true 0 0 0)
      (MkUI TRANSLATING (MkCamera 45 (Vec3 0 0 (-4)) 1 100)
            (MkMatrices None None None) (MkCanvas 800 600 800 600)) = Some s1.
Proof.
  unfold onmousemove. cbn [mouseMove]. cbv zeta. rewrite example_update_VP.
  cbn [matrices mat_VP mat_R canvas clientWidth clientHeight
       movementX movementY fst snd].
  replace (- 0) with 0 by ring. rewrite example_unproject_vector_zero.
  eexists. reflexivity.
Qed.

Lemma no_translation_initial (mm : mode) (c : Camera) (cv : Canvas) :
  no_translation (MkUI mm c (MkMatrices None None None) cv).
Proof. intros r H. discriminate. Qed.


Lemma handlers_keep_no_translation_witness :
  no_translation
    (onmousedown (MkEvent 1 false false 0 0 0)
       (MkUI NONE (MkCamera 45 (Vec3 0 0 (-4)) 1 100)
             (MkMatrices None None None) (MkCanvas 800 600 800 600))) /\
  no_translation
    (onmouseup (MkEvent 1 false false 0 0 0)
       (MkUI NONE (MkCamera 45 (Vec3 0 0 (-4)) 1 100)
             (MkMatrices None None None) (MkCanvas 800 600 800 600))).
Proof.
  destruct (handlers_keep_no_translation (fun _ _ _ _ => Some identity)
              (MkEvent 1 false false 0 0 0)
              (MkUI NONE (MkCamera 45 (Vec3 0 0 (-4)) 1 100)
                    (MkMatrices None None None) (MkCanvas 800 600 800 600))
              (no_translation_initial _ _ _)) as (Hd & Hu & _).
  split; assumption.
Defined.


Lemma onmousemove_frame_witness :
  exists s1,
    onmousemove (fun _ _ _ _ => Some identity)
      (MkEvent 1 false true 0 0 0)
      (MkUI TRANSLATING (MkCamera 45 (Vec3 0 0 (-4)) 1 100)
            (MkMatrices None None None) (MkCanvas 800 600 800 600)) = Some s1 /\
    mouseMove s1 = TRANSLATING /\ canvas s1 = MkCanvas 800 600 800 600.
Proof.
  destruct example_translating_move as [s1 H]. exists s1. split; [exact H|].
  destruct (onmousemove_frame (fun _ _ _ _ => Some identity) _ _ s1 H)
    as (Hm & Hc & _).
  split; assumption.
Defined.

(** ** Tangent-space generator: the order of the triangles *)

Lemma add_vertex3_comm2 (a : list R) (i j : nat) (v w : vec3) :
  add_vertex3 (add_vertex3 a i v) j w = add_vertex3 (add_vertex3 a j w) i v.
Proof.
  apply list_eq. intros k. unfold add_vertex3. rewrite !lookup_add_at.
  repeat (case_decide; try lia);
    destruct (a !! k); cbn; try reflexivity; f_equal; ring.
Qed.

Lemma accumulate_triangle_swap (positions uvs : list R) (acc : buffers)
    (i0 i1 i2 j0 j1 j2 : nat) :
  (acc1 <- accumulate_triangle positions uvs acc i0 i1 i2 ;;
   accumulate_triangle positions uvs acc1 j0 j1 j2) =
  (acc1 <- accumulate_triangle positions uvs acc j0 j1 j2 ;;
   accumulate_triangle positions uvs acc1 i0 i1 i2).
Proof.
  unfold accumulate_triangle.
  destruct (triangle_deltas positions uvs i0 i1 i2) as [d|],
           (triangle_deltas positions uvs j0 j1 j2) as [d'|];
    try reflexivity.
  - destruct (Req_dec_T (denom d) 0.0), (Req_dec_T (denom d') 0.0);
      try reflexivity.
    + destruct (tangent_bitangent d'); reflexivity.
    + destruct (tangent_bitangent d); reflexivity.
    + destruct (tangent_bitangent d) as [[T B]|], (tangent_bitangent d') as [[T' B']|];
        try reflexivity.
      cbn [tangents bitangents fst snd]. do 2 f_equal.
      * rewrite (add_vertex3_comm2 _ i2 j0 T T'), (add_vertex3_comm2 _ i1 j0 T T'),
          (add_vertex3_comm2 _ i0 j0 T T'), (add_vertex3_comm2 _ i2 j1 T T'),
          (add_vertex3_comm2 _ i1 j1 T T'), (add_vertex3_comm2 _ i0 j1 T T'),
          (add_vertex3_comm2 _ i2 j2 T T'), (add_vertex3_comm2 _ i1 j2 T T'),
          (add_vertex3_comm2 _ i0 j2 T T').
        reflexivity.
      * rewrite (add_vertex3_comm2 _ i2 j0 B B'), (add_vertex3_comm2 _ i1 j0 B B'),
          (add_vertex3_comm2 _ i0 j0 B B'), (add_vertex3_comm2 _ i2 j1 B B'),
          (add_vertex3_comm2 _ i1 j1 B B'), (add_vertex3_comm2 _ i0 j1 B B'),
          (add_vertex3_comm2 _ i2 j2 B B'), (add_vertex3_comm2 _ i1 j2 B B'),
          (add_vertex3_comm2 _ i0 j2 B B').
        reflexivity.
  - destruct (Req_dec_T (denom d) 0.0); [reflexivity|].
    destruct (tangent_bitangent d); reflexivity.
  - destruct (Req_dec_T (denom d') 0.0); [reflexivity|].
    destruct (tangent_bitangent d'); reflexivity.
Qed.

(** X24: the order of the triangles does not matter.  Exchanging two
    neighbouring triangles of the index list leaves the result of
    [computeTangents] as it is; so does, step by step, any reordering
    of the triangles. *)
Theorem computeTangents_triangle_order (positions normals uvs : list R)
    (front back : list nat) (i0 i1 i2 j0 j1 j2 triangles : nat) :
  length front = (triangles * 3)%nat ->
  computeTangents positions normals uvs
    (front ++ [i0; i1; i2] ++ [j0; j1; j2] ++ back) =
  computeTangents positions normals uvs
    (front ++ [j0; j1; j2] ++ [i0; i1; i2] ++ back).
Proof.
  intros Hl. unfold computeTangents. cbv zeta.
  rewrite !(accumulate_app positions uvs triangles front) by exact Hl.
  destruct (accumulate positions uvs front _) as [acc|]; [|reflexivity].
  cbn [app accumulate].
  pose proof (accumulate_triangle_swap positions uvs acc i0 i1 i2 j0 j1 j2) as E.
  destruct (accumulate_triangle positions uvs acc i0 i1 i2) as [a1|],
           (accumulate_triangle positions uvs acc j0 j1 j2) as [b1|].
  - rewrite E. reflexivity.
  - rewrite E. reflexivity.
  - rewrite <- E. reflexivity.
  - reflexivity.
Qed.

Lemma computeTangents_triangle_order_witness :
  computeTangents [0; 0; 0; 1; 0; 0; 0; 1; 0] [0; 0; 1; 0; 0; 1; 0; 0; 1]
                  [0; 0; 1; 0; 0; 1]
                  ([] ++ [0; 1; 2] ++ [2; 1; 0] ++ [])%nat =
  computeTangents [0; 0; 0; 1; 0; 0; 0; 1; 0] [0; 0; 1; 0; 0; 1; 0; 0; 1]
                  [0; 0; 1; 0; 0; 1]
                  ([] ++ [2; 1; 0] ++ [0; 1; 2] ++ [])%nat.
Proof.
  apply (computeTangents_triangle_order
           [0; 0; 0; 1; 0; 0; 0; 1; 0] [0; 0; 1; 0; 0; 1; 0; 0; 1]
           [0; 0; 1; 0; 0; 1] [] [] 0 1 2 2 1 0 0).
  reflexivity.
Defined.
